(** * The SIGQUIT / ^Q controller of lib/util/sigquit.c, and imalloc

    A shallow embedding of [sigquit.c] (and of the [imalloc] helper that
    accompanies it) as state-passing functions over a model of the process:
    the three globals of the translation unit, the C runtime (errno, the
    atexit registry) and the part of the kernel the code talks to (signal
    dispositions, descriptors, the terminal's attribute set).  Every library
    call leaves an event in a trace, so that statements about "what was
    called, in which order, with which arguments" are statements about
    lists. *)

From Stdlib Require Import ZArith List Lia String.
From stdpp Require Import base decidable option list gmap.

Local Open Scope Z_scope.

(** ** Platform constants

    [<termios.h>], [<signal.h>], [<errno.h>] and [<stdint.h>] are system
    headers: their constants are parameters of the development.  The only
    facts used are that [VQUIT] indexes [c_cc] and that [size_t] has at
    least one bit.  [_POSIX_VDISABLE] is a [cc_t] value: storing it in
    [c_cc] does not truncate it. *)

Class Platform : Type := {
  NCCS : nat;
  VQUIT : nat;
  _POSIX_VDISABLE : Z;
  TCSANOW : Z;
  SIGQUIT : Z;
  SIGTTOU : Z;
  ENOTTY : Z;
  ENXIO : Z;
  EBADF : Z;
  EINVAL : Z;
  ENODEV : Z;
  ENOMEM : Z;
  SIZE_BITS : Z;
  VQUIT_lt_NCCS : (VQUIT < NCCS)%nat;
  SIZE_BITS_pos : 0 < SIZE_BITS
}.

(** The values of Linux on x86-64, used to run the model. *)
#[export] Program Instance linux : Platform := {|
  NCCS := 32;
  VQUIT := 1;
  _POSIX_VDISABLE := 0;
  TCSANOW := 0;
  SIGQUIT := 3;
  SIGTTOU := 22;
  ENOTTY := 25;
  ENXIO := 6;
  EBADF := 9;
  EINVAL := 22;
  ENODEV := 19;
  ENOMEM := 12;
  SIZE_BITS := 64
|}.
Next Obligation. lia. Qed.
Next Obligation. lia. Qed.

(** ** Terminal attributes *)

(** [cc_t] is an unsigned char; a control character is a [Z] in [0, 256). *)
Record termios : Type := mk_termios {
  c_iflag : Z;
  c_oflag : Z;
  c_cflag : Z;
  c_lflag : Z;
  c_cc : list Z;
  c_ispeed : Z;
  c_ospeed : Z
}.

Definition set_c_cc (t : termios) (cc : list Z) : termios :=
  {| c_iflag := c_iflag t; c_oflag := c_oflag t; c_cflag := c_cflag t;
     c_lflag := c_lflag t; c_cc := cc;
     c_ispeed := c_ispeed t; c_ospeed := c_ospeed t |}.

(** [t.c_cc[i] = v] *)
Definition store_cc (t : termios) (i : nat) (v : Z) : termios :=
  set_c_cc t (<[i := v]> (c_cc t)).

(** ['q' & 0x1f] *)
Definition CTRL_Q : Z := Z.land 113 31.

Section Adjust.
Context `{Platform}.

(** One iteration of the loop at lines 147-150:
    [if (tc_new.c_cc[i] == ('q' & 0x1f)) tc_new.c_cc[i] = _POSIX_VDISABLE;] *)
Definition unbind_step (tc_new : termios) (i : nat) : termios :=
  match c_cc tc_new !! i with
  | Some c => if c =? CTRL_Q then store_cc tc_new i _POSIX_VDISABLE else tc_new
  | None => tc_new
  end.

(** What one iteration does to the control character it visits. *)
Definition unbind_cc (c : Z) : Z :=
  if c =? CTRL_Q then _POSIX_VDISABLE else c.

(** [for (i = 0; i < NCCS; i++) ...] *)
Definition unbind_loop (tc_new : termios) : termios :=
  foldl unbind_step tc_new (seq 0 NCCS).

(** Lines 143-153: copy the snapshot, remove any meaning which ^Q already
    has, set VQUIT to ^Q. *)
Definition remap_quit (saved : termios) : termios :=
  let tc_new := saved in
  let tc_new := unbind_loop tc_new in
  store_cc tc_new VQUIT CTRL_Q.

End Adjust.

(** ** The process: globals, C runtime, kernel *)

(** Functions whose address the code hands to the system.  Host code may
    install handlers and exit hooks of its own; they are opaque here. *)
Inductive sigfn : Type :=
| fn_sigquit_handler
| fn_host_handler (n : nat).

Inductive disposition : Type :=
| SIG_DFL
| SIG_IGN
| SIG_FN (f : sigfn).

Inductive exitfn : Type :=
| fn_termios_restore
| fn_host_exit (n : nat).

(** Outcome of a call that returns 0 or -1 with [errno]. *)
Inductive sysret : Type :=
| Done
| Failed (e : Z).

(** One entry per library call, with its arguments and what it returned.
    [signal] returns the previous disposition, [None] standing for
    [SIG_ERR]; [tcgetattr] returns the attributes or an error code. *)
Inductive event : Type :=
| EvSigaction (sig : Z) (h : disposition) (r : sysret)
| EvSignal (sig : Z) (h : disposition) (r : option disposition)
| EvTtyfd (fd : Z)
| EvTcgetattr (fd : Z) (r : termios + Z)
| EvTcsetattr (fd action : Z) (t : termios) (r : sysret)
| EvAtexit (f : exitfn) (r : sysret)
| EvClose (fd : Z) (r : sysret)
| EvWarnp (msg : string) (e : Z)
| EvWarn (msg : string)
| EvHostHandler (n : nat) (sig : Z)
| EvHostExit (n : nat).

Record World : Type := mk_World {
  (* globals of sigquit.c *)
  sigquit_received : Z;
  tc_saved : termios;
  fd_terminal : Z;
  (* C runtime *)
  errno : Z;
  exit_registry : list exitfn;        (* most recently registered first *)
  (* kernel *)
  sigtab : gmap Z disposition;        (* absent: SIG_DFL *)
  open_fds : gset Z;                  (* descriptors open on the terminal *)
  tty_live : termios;                 (* the terminal's live attributes *)
  (* which calls fail, and with which errno: call number -> error *)
  clock : nat;
  faults : nat -> option Z
}.

Definition set_sigquit_received (v : Z) (w : World) : World :=
  mk_World v (tc_saved w) (fd_terminal w) (errno w) (exit_registry w)
    (sigtab w) (open_fds w) (tty_live w) (clock w) (faults w).
Definition set_tc_saved (t : termios) (w : World) : World :=
  mk_World (sigquit_received w) t (fd_terminal w) (errno w) (exit_registry w)
    (sigtab w) (open_fds w) (tty_live w) (clock w) (faults w).
Definition set_fd_terminal (fd : Z) (w : World) : World :=
  mk_World (sigquit_received w) (tc_saved w) fd (errno w) (exit_registry w)
    (sigtab w) (open_fds w) (tty_live w) (clock w) (faults w).
Definition set_errno (e : Z) (w : World) : World :=
  mk_World (sigquit_received w) (tc_saved w) (fd_terminal w) e (exit_registry w)
    (sigtab w) (open_fds w) (tty_live w) (clock w) (faults w).
Definition set_exit_registry (l : list exitfn) (w : World) : World :=
  mk_World (sigquit_received w) (tc_saved w) (fd_terminal w) (errno w) l
    (sigtab w) (open_fds w) (tty_live w) (clock w) (faults w).
Definition set_sigtab (m : gmap Z disposition) (w : World) : World :=
  mk_World (sigquit_received w) (tc_saved w) (fd_terminal w) (errno w)
    (exit_registry w) m (open_fds w) (tty_live w) (clock w) (faults w).
Definition set_open_fds (s : gset Z) (w : World) : World :=
  mk_World (sigquit_received w) (tc_saved w) (fd_terminal w) (errno w)
    (exit_registry w) (sigtab w) s (tty_live w) (clock w) (faults w).
Definition set_tty_live (t : termios) (w : World) : World :=
  mk_World (sigquit_received w) (tc_saved w) (fd_terminal w) (errno w)
    (exit_registry w) (sigtab w) (open_fds w) t (clock w) (faults w).
Definition tick (w : World) : World :=
  mk_World (sigquit_received w) (tc_saved w) (fd_terminal w) (errno w)
    (exit_registry w) (sigtab w) (open_fds w) (tty_live w) (S (clock w))
    (faults w).

(** The disposition of [sig]. *)
Definition disposition_of (w : World) (sig : Z) : disposition :=
  default SIG_DFL (sigtab w !! sig).

(** ** A state-and-trace monad *)

Definition M (A : Type) : Type := World -> A * World * list event.

Definition ret {A} (a : A) : M A := fun w => (a, w, []).

Definition bind {A B} (m : M A) (k : A -> M B) : M B :=
  fun w =>
    let '(a, w1, e1) := m w in
    let '(b, w2, e2) := k a w1 in
    (b, w2, e1 ++ e2).

Notation "x <- m ;; k" := (bind m (fun x => k))
  (at level 100, m at next level, right associativity).
Notation "m ;; k" := (bind m (fun _ => k))
  (at level 100, right associativity).

Definition get {A} (f : World -> A) : M A := fun w => (f w, w, []).
Definition modify (f : World -> World) : M unit := fun w => (tt, f w, []).
Definition emit (e : event) : M unit := fun w => (tt, w, [e]).

(** Does the call being made now fail?  Consumes one slot of the schedule. *)
Definition oracle : M (option Z) :=
  fun w => (faults w (clock w), tick w, []).

Definition result_of {A} (m : M A) (w : World) : A := (m w).1.1.
Definition world_after {A} (m : M A) (w : World) : World := (m w).1.2.
Definition events_of {A} (m : M A) (w : World) : list event := (m w).2.

Section Program.
Context `{Platform}.

(** ** Library calls *)

(** [sigaction(sig, &sa, NULL)] with [sa.sa_handler = h], an empty mask and
    no flags. *)
Definition sigaction (sig : Z) (h : disposition) : M Z :=
  f <- oracle ;;
  match f with
  | Some e =>
      modify (set_errno e) ;; emit (EvSigaction sig h (Failed e)) ;; ret (-1)
  | None =>
      modify (fun w => set_sigtab (<[sig := h]> (sigtab w)) w) ;;
      emit (EvSigaction sig h Done) ;; ret 0
  end.

(** [signal(sig, h)]: the previous disposition, or [SIG_ERR] with the
    disposition left as it was. *)
Definition signal (sig : Z) (h : disposition) : M (option disposition) :=
  f <- oracle ;;
  match f with
  | Some e =>
      modify (set_errno e) ;; emit (EvSignal sig h None) ;; ret None
  | None =>
      old <- get (fun w => disposition_of w sig) ;;
      modify (fun w => set_sigtab (<[sig := h]> (sigtab w)) w) ;;
      emit (EvSignal sig h (Some old)) ;; ret (Some old)
  end.

(** A descriptor number that is not in use: descriptors are non-negative. *)
Definition unused_fd (fds : gset Z) : Z :=
  Z.of_nat (fresh (set_map Z.to_nat fds : gset nat)).

(** Modelled from the spec: [ttyfd] (declared in ttyfd.h, not part of the
    sources at hand).  It returns a descriptor bound to the controlling
    terminal, newly opened, or the sentinel -1 when there is none; it never
    reports an error. *)
Definition ttyfd : M Z :=
  f <- oracle ;;
  match f with
  | Some _ => emit (EvTtyfd (-1)) ;; ret (-1)
  | None =>
      fd <- get (fun w => unused_fd (open_fds w)) ;;
      modify (fun w => set_open_fds ({[fd]} ∪ open_fds w) w) ;;
      emit (EvTtyfd fd) ;; ret fd
  end.

(** [tcgetattr(fd, p)], [store] standing for the assignment through [p]. *)
Definition tcgetattr (fd : Z) (store : termios -> World -> World) : M Z :=
  f <- oracle ;;
  open <- get (fun w => bool_decide (fd ∈ open_fds w)) ;;
  match f, open with
  | Some e, _ =>
      modify (set_errno e) ;; emit (EvTcgetattr fd (inr e)) ;; ret (-1)
  | None, false =>
      modify (set_errno EBADF) ;; emit (EvTcgetattr fd (inr EBADF)) ;; ret (-1)
  | None, true =>
      t <- get tty_live ;;
      modify (store t) ;; emit (EvTcgetattr fd (inl t)) ;; ret 0
  end.

(** [tcsetattr(fd, action, t)].  A successful call installs [t] as given.
    That is what a terminal does for TCSANOW and a set that was read from
    it with tcgetattr and changed in its control characters only, which are
    the calls sigquit.c makes; for other sets a driver may install a
    normalised set and still report success, and nothing is claimed about
    them. *)
Definition tcsetattr (fd action : Z) (t : termios) : M Z :=
  f <- oracle ;;
  open <- get (fun w => bool_decide (fd ∈ open_fds w)) ;;
  match f, open with
  | Some e, _ =>
      modify (set_errno e) ;; emit (EvTcsetattr fd action t (Failed e)) ;;
      ret (-1)
  | None, false =>
      modify (set_errno EBADF) ;;
      emit (EvTcsetattr fd action t (Failed EBADF)) ;; ret (-1)
  | None, true =>
      modify (set_tty_live t) ;; emit (EvTcsetattr fd action t Done) ;; ret 0
  end.

(** [atexit(f)] *)
Definition atexit (fn : exitfn) : M Z :=
  f <- oracle ;;
  match f with
  | Some e =>
      modify (set_errno e) ;; emit (EvAtexit fn (Failed e)) ;; ret (-1)
  | None =>
      modify (fun w => set_exit_registry (fn :: exit_registry w) w) ;;
      emit (EvAtexit fn Done) ;; ret 0
  end.

(** [close(fd)] *)
Definition close (fd : Z) : M Z :=
  f <- oracle ;;
  open <- get (fun w => bool_decide (fd ∈ open_fds w)) ;;
  match f, open with
  | Some e, _ =>
      modify (set_errno e) ;; emit (EvClose fd (Failed e)) ;; ret (-1)
  | None, false =>
      modify (set_errno EBADF) ;; emit (EvClose fd (Failed EBADF)) ;; ret (-1)
  | None, true =>
      modify (fun w => set_open_fds (open_fds w ∖ {[fd]}) w) ;;
      emit (EvClose fd Done) ;; ret 0
  end.

(** Modelled from the spec: the diagnostic sink of warnp.h (not part of
    the sources at hand).  [warnp] reports the message with [errno], [warn]
    the message alone; both are advisory and do not affect control flow. *)
Definition warnp (msg : string) : M unit :=
  e <- get errno ;; emit (EvWarnp msg e).
Definition warn (msg : string) : M unit :=
  emit (EvWarn msg).

(** ** sigquit.c *)

(** [sigquit_handler(sig)]: record that SIGQUIT has been received. *)
Definition sigquit_handler (sig : Z) : M unit :=
  modify (set_sigquit_received 1).

(** [tcsetattr_nostop(fd, action, t)]: call tcsetattr, ignoring SIGTTOU
    while doing so. *)
Definition tcsetattr_nostop (fd action : Z) (t : termios) : M Z :=
  oldsig <- signal SIGTTOU SIG_IGN ;;
  match oldsig with
  | None => ret (-1)                                   (* goto err0 *)
  | Some oldsig =>
      rc <- tcsetattr fd action t ;;
      r <- signal SIGTTOU oldsig ;;
      match r with
      | None => ret (-1)                               (* goto err0 *)
      | Some _ => ret rc
      end
  end.

(** [termios_restore()]: restore the saved state, close the descriptor. *)
Definition termios_restore : M unit :=
  fd <- get fd_terminal ;;
  saved <- get tc_saved ;;
  _ <- tcsetattr_nostop fd TCSANOW saved ;;
  fd <- get fd_terminal ;;
  _ <- close fd ;;
  ret tt.

(** The error codes systems return from tcgetattr for non-terminals. *)
Definition benign_errno (e : Z) : bool :=
  (e =? ENOTTY) || (e =? ENXIO) || (e =? EBADF) || (e =? EINVAL) ||
  (e =? ENODEV).

(** [sigquit_init()] *)
Definition sigquit_init : M Z :=
  modify (set_sigquit_received 0) ;;
  rc <- sigaction SIGQUIT (SIG_FN fn_sigquit_handler) ;;
  if negb (rc =? 0) then
    warnp "sigaction(SIGQUIT)" ;; ret (-1)
  else
  fd <- ttyfd ;;
  modify (set_fd_terminal fd) ;;
  if fd =? -1 then
    ret 0
  else
  fd <- get fd_terminal ;;
  rc <- tcgetattr fd set_tc_saved ;;
  if negb (rc =? 0) then
    e <- get errno ;;
    if benign_errno e then
      ret 0
    else
      warnp "tcgetattr(stdin)" ;; ret (-1)
  else
  rc <- atexit fn_termios_restore ;;
  if negb (rc =? 0) then
    warn "atexit" ;; ret (-1)
  else
  saved <- get tc_saved ;;
  let tc_new := saved in
  let tc_new := unbind_loop tc_new in
  let tc_new := store_cc tc_new VQUIT CTRL_Q in
  fd <- get fd_terminal ;;
  rc <- tcsetattr_nostop fd TCSANOW tc_new ;;
  if negb (rc =? 0) then
    warnp "tcsetattr(stdin)" ;; ret (-1)
  else
  ret 0.

(** ** The rest of the process's life *)

(** Delivery of [sig] to a process that survives it: the installed handler
    runs, if there is one.  A signal left at a default action that ends the
    process is the business of [deliver_or_die] below. *)
Definition deliver (sig : Z) : M unit :=
  d <- get (fun w => disposition_of w sig) ;;
  match d with
  | SIG_FN fn_sigquit_handler => sigquit_handler sig
  | SIG_FN (fn_host_handler n) => emit (EvHostHandler n sig)
  | SIG_DFL | SIG_IGN => ret tt
  end.

Fixpoint deliver_all (sigs : list Z) : M unit :=
  match sigs with
  | [] => ret tt
  | sig :: sigs' => deliver sig ;; deliver_all sigs'
  end.

Definition call_exitfn (f : exitfn) : M unit :=
  match f with
  | fn_termios_restore => termios_restore
  | fn_host_exit n => emit (EvHostExit n)
  end.

Fixpoint call_exitfns (l : list exitfn) : M unit :=
  match l with
  | [] => ret tt
  | f :: l' => call_exitfn f ;; call_exitfns l'
  end.

(** [exit(3)]: the registered functions run, last registered first, each
    once. *)
Definition exit_process : M unit :=
  l <- get exit_registry ;;
  modify (set_exit_registry []) ;;
  call_exitfns l.

(** A run of the process that ends through exit(3), as far as this
    subsystem is concerned: initialization, signals that the process
    survives arriving while the host works, exit.  Runs that a signal or
    _exit(2) cuts short are [life] below. *)
Definition process (sigs : list Z) : M Z :=
  rc <- sigquit_init ;;
  deliver_all sigs ;;
  exit_process ;;
  ret rc.

End Program.

(** A newly started process on a terminal: zeroed globals, descriptors 0-2
    open, default dispositions, nothing registered. *)
Definition blank_termios : termios :=
  mk_termios 0 0 0 0 (replicate 32%nat 0) 0 0.

(** Typical line settings: ^C, ^\, DEL, ^U, ^D, ..., ^Q (VSTART), ^S (VSTOP). *)
Definition cooked_termios : termios :=
  mk_termios 17664 5 191 35387
    ([3; 28; 127; 21; 4; 0; 1; 0; 17; 19; 26; 0; 18; 15; 23; 22]
       ++ replicate 16%nat 0)
    15 15.

Definition boot (sched : nat -> option Z) : World :=
  {| sigquit_received := 0; tc_saved := blank_termios; fd_terminal := 0;
     errno := 0; exit_registry := [];
     sigtab := ∅; open_fds := {[0; 1; 2]}; tty_live := cooked_termios;
     clock := 0; faults := sched |}.

(** No call fails. *)
Definition no_faults : nat -> option Z := fun _ => None.
(** Exactly the [n]th call fails, with [e]. *)
Definition fault_at (n : nat) (e : Z) : nat -> option Z :=
  fun k => if Nat.eqb k n then Some e else None.

(** ** imalloc.h *)

(** What the allocation helper does to its surroundings: assignments to
    [errno] and requests to the allocator, latest first. *)
Inductive heap_event : Type :=
| HSetErrno (e : Z)
| HMalloc (size : Z).

Record Heap : Type := mk_Heap {
  h_errno : Z;
  h_log : list heap_event;
  (* the allocator: what malloc answers to a request, 0 being NULL *)
  h_grant : list heap_event -> Z -> Z
}.

Definition NULL : Z := 0.

Section Imalloc.
Context `{Platform}.

Definition SIZE_MAX : Z := 2 ^ SIZE_BITS - 1.

(** Multiplication of two [size_t]. *)
Definition size_mul (a b : Z) : Z := (a * b) mod 2 ^ SIZE_BITS.

(** [malloc(size)] *)
Definition malloc (size : Z) (h : Heap) : Z * Heap :=
  let p := h_grant h (h_log h) size in
  if p =? NULL then
    (NULL, mk_Heap ENOMEM (HSetErrno ENOMEM :: HMalloc size :: h_log h)
             (h_grant h))
  else
    (p, mk_Heap (h_errno h) (HMalloc size :: h_log h) (h_grant h)).

(** [imalloc(nrec, reclen)]; [None] is the failed assertion. *)
Definition imalloc (nrec reclen : Z) (h : Heap) : option (Z * Heap) :=
  if negb (negb (reclen =? 0)) then None          (* assert(reclen != 0) *)
  else if nrec =? 0 then Some (NULL, h)
  else if nrec >? SIZE_MAX / reclen then
    Some (NULL, mk_Heap ENOMEM (HSetErrno ENOMEM :: h_log h) (h_grant h))
  else Some (malloc (size_mul nrec reclen) h).

(** Sizes requested from the allocator, latest first. *)
Definition requests (l : list heap_event) : list Z :=
  omap (fun e => match e with HMalloc n => Some n | HSetErrno _ => None end) l.

End Imalloc.

(** An allocator that serves requests of up to a megabyte. *)
Definition small_heap : Heap :=
  mk_Heap 0 [] (fun log size => if size <=? 1048576 then 4096 + 16 * Z.of_nat (length log) else 0).

(** ** Reading traces *)

Definition rc_of (r : sysret) : Z :=
  match r with Done => 0 | Failed _ => -1 end.

Definition is_sigaction_failure (ev : event) : bool :=
  match ev with EvSigaction _ _ (Failed _) => true | _ => false end.
Definition is_atexit_failure (ev : event) : bool :=
  match ev with EvAtexit _ (Failed _) => true | _ => false end.
Definition is_signal_failure (ev : event) : bool :=
  match ev with EvSignal _ _ None => true | _ => false end.
Definition is_tcsetattr_failure (ev : event) : bool :=
  match ev with EvTcsetattr _ _ _ (Failed _) => true | _ => false end.
Definition is_tcgetattr (ev : event) : bool :=
  match ev with EvTcgetattr _ _ => true | _ => false end.
Definition is_tcsetattr (ev : event) : bool :=
  match ev with EvTcsetattr _ _ _ _ => true | _ => false end.
Definition is_atexit (ev : event) : bool :=
  match ev with EvAtexit _ _ => true | _ => false end.
Definition is_close (ev : event) : bool :=
  match ev with EvClose _ _ => true | _ => false end.
(** Events of host code: its handlers and exit hooks. *)
Definition is_host (ev : event) : bool :=
  match ev with EvHostHandler _ _ | EvHostExit _ => true | _ => false end.

(** The descriptors passed to [close], in order. *)
Definition closes (evs : list event) : list Z :=
  omap (fun ev => match ev with EvClose fd _ => Some fd | _ => None end) evs.

(** Every tcsetattr in the trace comes after a successful registration of
    the restore function; [reg] tells whether one was seen already. *)
Fixpoint guarded_by_registration (reg : bool) (evs : list event) : bool :=
  match evs with
  | [] => true
  | EvAtexit fn_termios_restore Done :: evs' => guarded_by_registration true evs'
  | EvTcsetattr _ _ _ _ :: evs' => reg && guarded_by_registration reg evs'
  | _ :: evs' => guarded_by_registration reg evs'
  end.

Section Verdicts.
Context `{Platform}.

Definition is_hard_tcgetattr_failure (ev : event) : bool :=
  match ev with
  | EvTcgetattr _ (inr e) => negb (benign_errno e)
  | _ => false
  end.
Definition is_hard_tcsetattr_failure (ev : event) : bool :=
  match ev with
  | EvTcsetattr _ _ _ (Failed e) => negb (benign_errno e)
  | _ => false
  end.

(** The failure condition in the words of the specification: the handler
    cannot be installed, or the query fails with an error outside the benign
    set, or the registration fails, or the live set fails with an error
    outside the benign set. *)
Definition failure_as_specified (evs : list event) : bool :=
  existsb is_sigaction_failure evs
  || existsb is_hard_tcgetattr_failure evs
  || existsb is_atexit_failure evs
  || existsb is_hard_tcsetattr_failure evs.

(** The failure condition of the code: as above for the first three, and
    any failure inside tcsetattr_nostop, whatever the error code. *)
Definition failure_in_code (evs : list event) : bool :=
  existsb is_sigaction_failure evs
  || existsb is_hard_tcgetattr_failure evs
  || existsb is_atexit_failure evs
  || existsb is_tcsetattr_failure evs
  || existsb is_signal_failure evs.

(** What the subsystem may do once initialization is over: its handler runs
    on a signal, and the process exits. *)
Inductive later_op : Type :=
| OpDeliver (sig : Z)
| OpExit.

Definition run_op (o : later_op) : M unit :=
  match o with
  | OpDeliver sig => deliver sig
  | OpExit => exit_process
  end.

Fixpoint run_ops (ops : list later_op) : M unit :=
  match ops with
  | [] => ret tt
  | o :: ops' => run_op o ;; run_ops ops'
  end.

(** A tcsetattr event, if it is one, sets [s] on [fd] at once. *)
Definition applies_only (fd : Z) (s : termios) (ev : event) : Prop :=
  match ev with
  | EvTcsetattr fd' action t _ => fd' = fd ∧ action = TCSANOW ∧ t = s
  | _ => True
  end.

(** From [w] to [w'] the saved snapshot and the descriptor were left alone,
    and the flag was left alone or set. *)
Definition keeps (w w' : World) : Prop :=
  tc_saved w' = tc_saved w ∧
  fd_terminal w' = fd_terminal w ∧
  (sigquit_received w' = sigquit_received w ∨ sigquit_received w' = 1).

End Verdicts.

(** ** More ways to read a trace, and the IMALLOC macro *)

Definition is_tcsetattr_done (ev : event) : bool :=
  match ev with EvTcsetattr _ _ _ Done => true | _ => false end.
Definition is_close_done (ev : event) : bool :=
  match ev with EvClose _ Done => true | _ => false end.

(** The messages handed to warnp and warn, in order. *)
Definition diagnostics (evs : list event) : list string :=
  omap (fun ev => match ev with
                  | EvWarnp msg _ | EvWarn msg => Some msg
                  | _ => None
                  end) evs.

(** No call fails from here on. *)
Definition calm (w : World) : Prop := ∀ n, faults w n = None.

Section Macro.
Context `{Platform}.

(** [IMALLOC(p, nrec, type)], with [size] for [sizeof(type)]:
    [(((p) = imalloc((nrec), sizeof(type))) == NULL) && ((nrec) > 0)].
    The result is the truth value of the expression (non-zero on failure),
    the pointer stored in [p], and the heap; [None] is the failed
    assertion of imalloc. *)
Definition IMALLOC (nrec size : Z) (h : Heap) : option (bool * Z * Heap) :=
  match imalloc nrec size h with
  | None => None
  | Some (p, h') => Some ((p =? NULL) && (nrec >? 0), p, h')
  end.

End Macro.

(** ** How a run ends

    A signal that is neither caught nor ignored has its default action:
    it ends the process (SIGINT, SIGTERM, SIGKILL, ...) or it does not
    (SIGCHLD, SIGWINCH, the stop signals, ...).  Which signals do what
    belongs to the platform. *)
Class SignalDefaults : Type := {
  terminates : Z -> bool
}.

(** Linux: the default action of SIGCHLD, SIGCONT, SIGSTOP, SIGTSTP,
    SIGTTIN, SIGTTOU, SIGURG and SIGWINCH leaves the process alive; that of
    every other signal ends it. *)
#[export] Instance linux_defaults : SignalDefaults := {|
  terminates := fun sig =>
    negb (existsb (Z.eqb sig) [17; 18; 19; 20; 21; 22; 23; 28])
|}.

(** The way the host ends a process that no signal has ended. *)
Inductive ending : Type :=
| by_exit         (* exit(3) or return from main: the exit functions run *)
| without_exit.   (* _exit(2), abort(3): they do not *)

Definition runs_exit_functions (how : ending) : bool :=
  match how with by_exit => true | without_exit => false end.

Section Lifetime.
Context `{Platform} `{SignalDefaults}.

(** Delivery of [sig] and what becomes of the process: a caught signal runs
    its handler, an ignored one does nothing, and one at its default action
    ends the process there and then when that is what its default action
    does.  The result tells whether the process is still running.  Handlers
    of host code are taken to return. *)
Definition deliver_or_die (sig : Z) : M bool :=
  d <- get (fun w => disposition_of w sig) ;;
  match d with
  | SIG_FN fn_sigquit_handler => sigquit_handler sig ;; ret true
  | SIG_FN (fn_host_handler n) => emit (EvHostHandler n sig) ;; ret true
  | SIG_IGN => ret true
  | SIG_DFL => ret (negb (terminates sig))
  end.

(** The signals arrive one after the other, as long as the process lives. *)
Fixpoint deliver_until_death (sigs : list Z) : M bool :=
  match sigs with
  | [] => ret true
  | sig :: sigs' =>
      alive <- deliver_or_die sig ;;
      if alive then deliver_until_death sigs' else ret false
  end.

(** The life of a process: initialization, signals arriving while the host
    works, and the end.  The exit functions run only if no signal has ended
    the process and the host ends it through exit(3).  The result is what
    sigquit_init returned and whether the exit functions ran. *)
Definition life (sigs : list Z) (how : ending) : M (Z * bool) :=
  rc <- sigquit_init ;;
  alive <- deliver_until_death sigs ;;
  if alive && runs_exit_functions how then
    exit_process ;; ret (rc, true)
  else
    ret (rc, false).

End Lifetime.

(** ** Reasoning about runs

    [wp m w Q]: running [m] from [w] gives a result, a final state and a
    trace that satisfy [Q]. *)
Definition wp {A} (m : M A) (w : World)
    (Q : A -> World -> list event -> Prop) : Prop :=
  Q (result_of m w) (world_after m w) (events_of m w).

(** * Properties *)

(** ** The control-character adjustment *)

Section AdjustFacts.
Context `{Platform}.

Lemma CTRL_Q_value : CTRL_Q = 17.
Proof. reflexivity. Qed.

Lemma unbind_step_cc (t : termios) (i j : nat) :
  c_cc (unbind_step t i) !! j =
  if decide (i = j) then unbind_cc <$> (c_cc t !! j) else c_cc t !! j.
Proof.
  unfold unbind_step, unbind_cc.
  destruct (decide (i = j)) as [->|Hne].
  - destruct (c_cc t !! j) as [c|] eqn:Hj; simpl; [|by rewrite Hj].
    destruct (c =? CTRL_Q); simpl; [|by rewrite Hj].
    apply list_lookup_insert_eq. by eapply lookup_lt_Some.
  - destruct (c_cc t !! i) as [c|]; [|done].
    destruct (c =? CTRL_Q); [|done].
    simpl. by apply list_lookup_insert_ne.
Qed.

Lemma unbind_step_frame (t : termios) (i : nat) :
  c_iflag (unbind_step t i) = c_iflag t ∧ c_oflag (unbind_step t i) = c_oflag t ∧
  c_cflag (unbind_step t i) = c_cflag t ∧ c_lflag (unbind_step t i) = c_lflag t ∧
  c_ispeed (unbind_step t i) = c_ispeed t ∧ c_ospeed (unbind_step t i) = c_ospeed t ∧
  length (c_cc (unbind_step t i)) = length (c_cc t).
Proof.
  unfold unbind_step.
  destruct (c_cc t !! i) as [c|]; [|done].
  destruct (c =? CTRL_Q); [|done].
  simpl. by rewrite length_insert.
Qed.

Lemma unbind_range_cc (n a : nat) (t : termios) (j : nat) :
  c_cc (foldl unbind_step t (seq a n)) !! j =
  if bool_decide (a ≤ j < a + n)%nat then unbind_cc <$> (c_cc t !! j)
  else c_cc t !! j.
Proof.
  revert a t. induction n as [|n IH]; intros a t.
  - simpl. rewrite bool_decide_eq_false_2; [done | lia].
  - simpl. rewrite IH, !unbind_step_cc.
    destruct (decide (a = j)) as [->|Hne].
    + rewrite bool_decide_eq_false_2 by lia.
      by rewrite bool_decide_eq_true_2 by lia.
    + destruct (decide (S a ≤ j < S a + n)%nat).
      * rewrite !bool_decide_eq_true_2 by lia. done.
      * rewrite !bool_decide_eq_false_2 by lia. done.
Qed.

Lemma unbind_range_frame (n a : nat) (t : termios) :
  let t' := foldl unbind_step t (seq a n) in
  c_iflag t' = c_iflag t ∧ c_oflag t' = c_oflag t ∧
  c_cflag t' = c_cflag t ∧ c_lflag t' = c_lflag t ∧
  c_ispeed t' = c_ispeed t ∧ c_ospeed t' = c_ospeed t ∧
  length (c_cc t') = length (c_cc t).
Proof.
  revert a t. induction n as [|n IH]; intros a t; simpl; [done|].
  specialize (IH (S a) (unbind_step t a)). simpl in IH.
  pose proof (unbind_step_frame t a). intuition congruence.
Qed.

(** The adjusted copy, entry by entry and field by field. *)
Lemma remap_quit_spec (s : termios) :
  length (c_cc s) = NCCS →
  c_cc (remap_quit s) !! VQUIT = Some CTRL_Q ∧
  (∀ i c, i ≠ VQUIT → c_cc s !! i = Some c → c = 17 →
          c_cc (remap_quit s) !! i = Some _POSIX_VDISABLE) ∧
  (∀ i c, i ≠ VQUIT → c_cc s !! i = Some c → c ≠ 17 →
          c_cc (remap_quit s) !! i = Some c) ∧
  length (c_cc (remap_quit s)) = NCCS ∧
  c_iflag (remap_quit s) = c_iflag s ∧ c_oflag (remap_quit s) = c_oflag s ∧
  c_cflag (remap_quit s) = c_cflag s ∧ c_lflag (remap_quit s) = c_lflag s ∧
  c_ispeed (remap_quit s) = c_ispeed s ∧ c_ospeed (remap_quit s) = c_ospeed s.
Proof.
  intros Hlen. unfold remap_quit, unbind_loop, store_cc.
  pose proof (unbind_range_frame NCCS 0 s) as Hfr. simpl in Hfr.
  destruct Hfr as (?&?&?&?&?&?&Hl).
  pose proof VQUIT_lt_NCCS as Hq.
  simpl. rewrite length_insert.
  split_and!; try congruence.
  - apply list_lookup_insert_eq. lia.
  - intros i c Hi Hc ->.
    rewrite list_lookup_insert_ne by done.
    rewrite unbind_range_cc, Hc.
    apply lookup_lt_Some in Hc.
    rewrite bool_decide_eq_true_2 by lia. done.
  - intros i c Hi Hc Hne.
    rewrite list_lookup_insert_ne by done.
    rewrite unbind_range_cc, Hc.
    apply lookup_lt_Some in Hc.
    rewrite bool_decide_eq_true_2 by lia.
    simpl. unfold unbind_cc. rewrite CTRL_Q_value.
    by destruct (Z.eqb_spec c 17).
Qed.

End AdjustFacts.


(** ** Rules for runs *)

Lemma wp_ret {A} (a : A) w Q : Q a w [] → wp (ret a) w Q.
Proof. exact id. Qed.

Lemma wp_bind {A B} (m : M A) (k : A → M B) w Q :
  wp m w (λ a w1 e1, wp (k a) w1 (λ b w2 e2, Q b w2 (e1 ++ e2))) →
  wp (bind m k) w Q.
Proof.
  unfold wp, result_of, world_after, events_of, bind.
  destruct (m w) as [[a w1] e1]; simpl.
  destruct (k a w1) as [[b w2] e2]; simpl. exact id.
Qed.

Lemma wp_get {A} (f : World → A) w Q : Q (f w) w [] → wp (get f) w Q.
Proof. exact id. Qed.

Lemma wp_modify (f : World → World) w Q : Q tt (f w) [] → wp (modify f) w Q.
Proof. exact id. Qed.

Lemma wp_emit (ev : event) w Q : Q tt w [ev] → wp (emit ev) w Q.
Proof. exact id. Qed.

Lemma wp_oracle w Q : Q (faults w (clock w)) (tick w) [] → wp oracle w Q.
Proof. exact id. Qed.

(** A statement about the three components of a run is a [wp]. *)
Lemma wp_from_run {A} (m : M A) w (P : A * World * list event → Prop) :
  wp m w (λ a w' evs, P (a, w', evs)) → P (m w).
Proof.
  unfold wp, result_of, world_after, events_of.
  destruct (m w) as [[a w'] evs]. exact id.
Qed.

Lemma wp_mono {A} (m : M A) w (Q Q' : A → World → list event → Prop) :
  wp m w Q → (∀ a w' evs, Q a w' evs → Q' a w' evs) → wp m w Q'.
Proof. unfold wp. auto. Qed.

Lemma unused_fd_nonneg (fds : gset Z) : 0 <= unused_fd fds.
Proof. unfold unused_fd. lia. Qed.

Lemma unused_fd_fresh (fds : gset Z) : unused_fd fds ∉ fds.
Proof.
  unfold unused_fd. intros Hin.
  apply (is_fresh (set_map Z.to_nat fds : gset nat)).
  apply elem_of_map. eexists. split; [|exact Hin]. lia.
Qed.

Lemma unused_fd_not_sentinel (fds : gset Z) : (unused_fd fds =? -1) = false.
Proof. pose proof (unused_fd_nonneg fds). lia. Qed.

Lemma unused_fd_opened (fds : gset Z) :
  bool_decide (unused_fd fds ∈ {[unused_fd fds]} ∪ fds) = true.
Proof. apply bool_decide_eq_true_2. set_solver. Qed.

(** Projections through the field updates. *)
Ltac read_world :=
  cbn [sigquit_received tc_saved fd_terminal errno exit_registry sigtab
       open_fds tty_live clock faults
       set_sigquit_received set_tc_saved set_fd_terminal set_errno
       set_exit_registry set_sigtab set_open_fds set_tty_live tick] in *.

Ltac wp_simpl :=
  cbv beta iota zeta; read_world;
  repeat match goal with
  | |- context [negb (0 =? 0)] => change (negb (0 =? 0)) with false
  | |- context [negb (-1 =? 0)] => change (negb (-1 =? 0)) with true
  | |- context [-1 =? -1] => change (-1 =? -1) with true
  | |- context [unused_fd ?X =? -1] => rewrite (unused_fd_not_sentinel X)
  | |- context [bool_decide (unused_fd ?X ∈ {[unused_fd ?X]} ∪ ?X)] =>
      rewrite (unused_fd_opened X)
  end;
  cbv beta iota zeta.

Ltac wp_step :=
  lazymatch goal with
  | |- wp (bind _ _) _ _ => apply wp_bind
  | |- wp (ret _) _ _ => apply wp_ret
  | |- wp (get _) _ _ => apply wp_get
  | |- wp (modify _) _ _ => apply wp_modify
  | |- wp (emit _) _ _ => apply wp_emit
  | |- wp oracle _ _ => apply wp_oracle
  | |- wp (match ?x with _ => _ end) _ _ =>
      let F := fresh "F" in destruct x eqn:F
  | |- wp (sigaction _ _) _ _ => unfold sigaction
  | |- wp (signal _ _) _ _ => unfold signal
  | |- wp ttyfd _ _ => unfold ttyfd
  | |- wp (tcgetattr _ _) _ _ => unfold tcgetattr
  | |- wp (tcsetattr _ _ _) _ _ => unfold tcsetattr
  | |- wp (atexit _) _ _ => unfold atexit
  | |- wp (close _) _ _ => unfold close
  | |- wp (warnp _) _ _ => unfold warnp
  | |- wp (warn _) _ _ => unfold warn
  | |- wp (sigquit_handler _) _ _ => unfold sigquit_handler
  | |- wp (tcsetattr_nostop _ _ _) _ _ => unfold tcsetattr_nostop
  | |- wp termios_restore _ _ => unfold termios_restore
  | |- wp sigquit_init _ _ => unfold sigquit_init
  end; wp_simpl.

(** Run the program on every path. *)
Ltac wp_run := wp_simpl; repeat wp_step; cbn [app fst snd] in *.

(** Turn a goal about [result_of m w], [world_after m w] and [events_of m w]
    into one statement per path of [m]. *)
Ltac run_on m w :=
  unfold events_of, result_of, world_after;
  pattern (m w); apply wp_from_run; wp_run.

(** Evaluate the classifiers on a trace that is known event by event. *)
Ltac read_trace :=
  cbn [existsb orb andb negb rc_of closes omap guarded_by_registration
       is_sigaction_failure is_atexit_failure is_signal_failure
       is_tcsetattr_failure is_tcgetattr is_tcsetattr is_atexit is_close
       is_host forallb is_hard_tcgetattr_failure is_hard_tcsetattr_failure requests] in *.

Ltac use_benign :=
  repeat match goal with
  | Hb : benign_errno ?e = _ |- context [benign_errno ?e] => rewrite Hb
  end.

Ltac trace_cases :=
  repeat match goal with
  | Hin : In _ (_ :: _) |- _ => destruct Hin as [Hin|Hin]
  | Hin : In _ [] |- _ => destruct Hin
  | Heq : _ = _ :> event |- _ => first [discriminate Heq | injection Heq as ?]
  end; subst.

Section InitClaims.
Context `{Platform}.

Lemma sigquit_init_result (w : World) :
  result_of sigquit_init w = 0 ∨ result_of sigquit_init w = -1.
Proof. run_on sigquit_init w; auto. Qed.

(** C2, as the code has it: sigquit_init returns -1 exactly when sigaction
    fails, or tcgetattr fails with an error outside the benign set, or atexit
    fails, or tcsetattr_nostop fails (one of its two signal calls or its
    tcsetattr, with any error code); it returns 0 in every other case. *)
Theorem C2_failure_conditions (w : World) :
  (result_of sigquit_init w = -1 ↔
   failure_in_code (events_of sigquit_init w) = true) ∧
  (result_of sigquit_init w = 0 ↔
   failure_in_code (events_of sigquit_init w) = false).
Proof.
  run_on sigquit_init w; unfold failure_in_code; read_trace;
    use_benign; read_trace.
  all: split; split; intros Hx; try reflexivity; try discriminate Hx.
Qed.

(** C1: whenever sigquit_init sets the live attributes, the set it applies
    is the snapshot with c_cc[VQUIT] = 0x11, with every other entry that was
    0x11 replaced by _POSIX_VDISABLE, and with every other entry and every
    other field as in the snapshot. *)
Theorem C1_adjusted_attribute_set (w : World) (fd action : Z) (t : termios)
    (r : sysret) :
  length (c_cc (tty_live w)) = NCCS →
  In (EvTcsetattr fd action t r) (events_of sigquit_init w) →
  ∃ s : termios,
    In (EvTcgetattr fd (inl s)) (events_of sigquit_init w) ∧
    tc_saved (world_after sigquit_init w) = s ∧
    length (c_cc s) = NCCS ∧
    t = remap_quit s ∧
    c_cc t !! VQUIT = Some 17 ∧
    (∀ i c, i ≠ VQUIT → c_cc s !! i = Some c → c = 17 →
            c_cc t !! i = Some _POSIX_VDISABLE) ∧
    (∀ i c, i ≠ VQUIT → c_cc s !! i = Some c → c ≠ 17 →
            c_cc t !! i = Some c) ∧
    length (c_cc t) = NCCS ∧
    c_iflag t = c_iflag s ∧ c_oflag t = c_oflag s ∧
    c_cflag t = c_cflag s ∧ c_lflag t = c_lflag s ∧
    c_ispeed t = c_ispeed s ∧ c_ospeed t = c_ospeed s.
Proof.
  intros Hlen.
  run_on sigquit_init w; intros Hin; trace_cases.
  all: pose proof (remap_quit_spec (tty_live w) Hlen) as Hspec.
  all: exists (tty_live w); split; [simpl; tauto|]; split; [reflexivity|].
  all: split; [exact Hlen|]; split; [reflexivity|]; exact Hspec.
Qed.

Lemma guarded_by_registration_sound (evs : list event) :
  guarded_by_registration false evs = true →
  ∀ before ev after,
    evs = before ++ ev :: after → is_tcsetattr ev = true →
    In (EvAtexit fn_termios_restore Done) before.
Proof.
  induction evs as [|e evs IH]; intros Hg before ev after Heq Hev.
  - by destruct before.
  - destruct before as [|b before]; simplify_eq/=.
    + destruct ev; try discriminate Hev. discriminate Hg.
    + destruct b as [| | | |? ? ? ?|f r| | | | |];
        try (right; eapply IH; [exact Hg|reflexivity|exact Hev]).
      * discriminate Hg.
      * destruct f, r; [left; reflexivity|..];
          (right; eapply IH; [exact Hg|reflexivity|exact Hev]).
Qed.

(** C5: in the trace of sigquit_init every tcsetattr comes after the
    successful registration of termios_restore; and when the registration
    fails, sigquit_init returns -1, no tcsetattr was called and the live
    attributes are those from before the call. *)
Theorem C5_registration_precedes_mutation (w : World) :
  (∀ before ev after,
     events_of sigquit_init w = before ++ ev :: after →
     is_tcsetattr ev = true →
     In (EvAtexit fn_termios_restore Done) before) ∧
  (existsb is_atexit_failure (events_of sigquit_init w) = true →
   result_of sigquit_init w = -1 ∧
   existsb is_tcsetattr (events_of sigquit_init w) = false ∧
   tty_live (world_after sigquit_init w) = tty_live w).
Proof.
  split.
  - apply guarded_by_registration_sound.
    run_on sigquit_init w; reflexivity.
  - run_on sigquit_init w; read_trace; intros Hx;
      try discriminate Hx; auto.
Qed.

(** C6: when ttyfd returns -1, sigquit_init returns 0 with sigquit_received
    zero and the handler installed for SIGQUIT, and has called nothing but
    sigaction and ttyfd: no tcgetattr, no tcsetattr, no atexit. *)
Theorem C6_no_terminal (w : World) :
  In (EvTtyfd (-1)) (events_of sigquit_init w) →
  result_of sigquit_init w = 0 ∧
  sigquit_received (world_after sigquit_init w) = 0 ∧
  disposition_of (world_after sigquit_init w) SIGQUIT =
    SIG_FN fn_sigquit_handler ∧
  events_of sigquit_init w =
    [EvSigaction SIGQUIT (SIG_FN fn_sigquit_handler) Done; EvTtyfd (-1)] ∧
  existsb is_tcgetattr (events_of sigquit_init w) = false ∧
  existsb is_tcsetattr (events_of sigquit_init w) = false ∧
  existsb is_atexit (events_of sigquit_init w) = false ∧
  exit_registry (world_after sigquit_init w) = exit_registry w ∧
  tty_live (world_after sigquit_init w) = tty_live w.
Proof.
  run_on sigquit_init w; intros Hin; trace_cases.
  all: try (pose proof (unused_fd_nonneg (open_fds w)); lia).
  unfold disposition_of. read_world. rewrite lookup_insert_eq.
  read_trace. repeat split.
Qed.

End InitClaims.

(** ** The backgrounding-safe setter *)

Section NostopClaims.
Context `{Platform}.

(** C3, as the code has it: when the initial change of the SIGTTOU
    disposition succeeds, tcsetattr is called and then, whatever it
    returned, signal(SIGTTOU, oldsig) with the disposition found at entry.
    If that second call succeeds, the function returns what tcsetattr
    returned and the disposition of SIGTTOU is the one from before the call;
    if it fails, the function returns -1. *)
Theorem C3_sigttou_restored (w : World) (fd action : Z) (t : termios)
    (old : disposition) :
  head (events_of (tcsetattr_nostop fd action t) w) =
    Some (EvSignal SIGTTOU SIG_IGN (Some old)) →
  ∃ (r : sysret) (back : option disposition),
    old = disposition_of w SIGTTOU ∧
    events_of (tcsetattr_nostop fd action t) w =
      [EvSignal SIGTTOU SIG_IGN (Some old);
       EvTcsetattr fd action t r;
       EvSignal SIGTTOU old back] ∧
    (back ≠ None →
       result_of (tcsetattr_nostop fd action t) w = rc_of r ∧
       disposition_of (world_after (tcsetattr_nostop fd action t) w) SIGTTOU =
         disposition_of w SIGTTOU) ∧
    (back = None → result_of (tcsetattr_nostop fd action t) w = -1).
Proof.
  run_on (tcsetattr_nostop fd action t) w; unfold disposition_of;
    read_world; cbn [head]; intros Hhd; simplify_eq.
  all: eexists _, _; split; [reflexivity|]; split; [reflexivity|].
  all: split; [intros Hb; try (by destruct Hb) | intros Hb; try discriminate Hb;
                                                   try reflexivity].
  all: split; [reflexivity|]; by rewrite lookup_insert_eq.
Qed.

End NostopClaims.

(** ** imalloc *)

Section ImallocClaims.
Context `{Platform}.

Lemma SIZE_MAX_pos : 0 < SIZE_MAX.
Proof.
  unfold SIZE_MAX. pose proof SIZE_BITS_pos.
  assert (2 ^ 1 <= 2 ^ SIZE_BITS) by (apply Z.pow_le_mono_r; lia). lia.
Qed.

Lemma overflow_test (nrec reclen : Z) :
  0 < reclen →
  (nrec > SIZE_MAX / reclen ↔ nrec * reclen > SIZE_MAX).
Proof.
  intros Hr.
  pose proof (Z.mul_div_le SIZE_MAX reclen Hr).
  pose proof (Z.mul_succ_div_gt SIZE_MAX reclen Hr).
  split; intros Hn; nia.
Qed.

Lemma size_mul_exact (nrec reclen : Z) :
  0 <= nrec → 0 < reclen → nrec <= SIZE_MAX / reclen →
  size_mul nrec reclen = nrec * reclen.
Proof.
  intros Hn Hr Hle. unfold size_mul.
  assert (¬ nrec * reclen > SIZE_MAX) by (rewrite <- overflow_test; lia).
  apply Z.mod_small. unfold SIZE_MAX in *. nia.
Qed.

Lemma cons_neq {A} (x : A) (l : list A) : x :: l ≠ l.
Proof. intros Heq. apply (f_equal length) in Heq. simpl in Heq. lia. Qed.

Lemma malloc_requests (size : Z) (h : Heap) :
  requests (h_log (malloc size h).2) = size :: requests (h_log h).
Proof. unfold malloc. by destruct (_ =? NULL). Qed.

Lemma malloc_log (size : Z) (h : Heap) :
  h_log (malloc size h).2 ≠ HSetErrno ENOMEM :: h_log h.
Proof.
  unfold malloc. destruct (_ =? NULL); simpl; intros Heq; simplify_eq.
  by apply cons_neq in Heq.
Qed.

(** C7: for a nonzero record length, imalloc returns NULL and does nothing
    else when nrec is zero; it sets errno to ENOMEM and returns NULL, without
    calling malloc, exactly when nrec > SIZE_MAX / reclen, which is when the
    product exceeds SIZE_MAX; otherwise it calls malloc with exactly
    nrec * reclen. *)
Theorem C7_imalloc (nrec reclen : Z) (h : Heap) :
  0 <= nrec <= SIZE_MAX →
  0 < reclen <= SIZE_MAX →
  (nrec > SIZE_MAX / reclen ↔ nrec * reclen > SIZE_MAX) ∧
  (nrec = 0 → imalloc nrec reclen h = Some (NULL, h)) ∧
  (nrec > SIZE_MAX / reclen →
     imalloc nrec reclen h =
       Some (NULL, mk_Heap ENOMEM (HSetErrno ENOMEM :: h_log h) (h_grant h))) ∧
  (nrec ≠ 0 → nrec <= SIZE_MAX / reclen →
     imalloc nrec reclen h = Some (malloc (nrec * reclen) h)) ∧
  (∀ p h', imalloc nrec reclen h = Some (p, h') →
     (p = NULL ∧ h_log h' = HSetErrno ENOMEM :: h_log h ↔
      nrec > SIZE_MAX / reclen) ∧
     (requests (h_log h') = requests (h_log h) ↔
      nrec = 0 ∨ nrec > SIZE_MAX / reclen) ∧
     (nrec ≠ 0 → nrec <= SIZE_MAX / reclen →
      requests (h_log h') = nrec * reclen :: requests (h_log h))).
Proof.
  intros Hn Hr.
  assert (Hdiv : 0 <= SIZE_MAX / reclen)
    by (apply Z.div_pos; [pose proof SIZE_MAX_pos|]; lia).
  split; [apply overflow_test; lia|].
  unfold imalloc.
  destruct (Z.eqb_spec reclen 0) as [?|_]; [lia|]. cbn [negb].
  destruct (Z.eqb_spec nrec 0) as [->|Hnz].
  - split; [done|]. split; [lia|]. split; [done|].
    intros p h' [= <- <-]. split; [|split].
    + split; [intros [_ Hl]; by apply eq_sym, cons_neq in Hl | lia].
    + split; [by left | done].
    + done.
  - destruct (Z.gtb_spec nrec (SIZE_MAX / reclen)) as [Hgt|Hle].
    + split; [done|]. split; [done|]. split; [lia|].
      intros p h' [= <- <-]. cbn [h_log requests omap]. split; [|split].
      * split; [lia | done].
      * split; [right; lia | done].
      * lia.
    + split; [done|]. split; [lia|].
      rewrite size_mul_exact by lia. split; [done|].
      intros p h' Heq. injection Heq as Heq.
      pose proof (malloc_requests (nrec * reclen) h) as Hreq.
      pose proof (malloc_log (nrec * reclen) h) as Hlog.
      rewrite Heq in Hreq, Hlog. cbn [snd] in Hreq, Hlog.
      split; [|split].
      * split; [intros [_ Hl]; by destruct Hlog | lia].
      * rewrite Hreq. split; [intros Hx; by apply cons_neq in Hx | lia].
      * done.
Qed.

End ImallocClaims.

(** ** After initialization *)

Lemma result_of_bind {A B} (m : M A) (k : A → M B) w :
  result_of (bind m k) w = result_of (k (result_of m w)) (world_after m w).
Proof.
  unfold result_of, world_after, bind.
  destruct (m w) as [[a w1] e1]; simpl. by destruct (k a w1) as [[b w2] e2].
Qed.

Lemma world_after_bind {A B} (m : M A) (k : A → M B) w :
  world_after (bind m k) w = world_after (k (result_of m w)) (world_after m w).
Proof.
  unfold result_of, world_after, bind.
  destruct (m w) as [[a w1] e1]; simpl. by destruct (k a w1) as [[b w2] e2].
Qed.

Lemma events_of_bind {A B} (m : M A) (k : A → M B) w :
  events_of (bind m k) w =
  events_of m w ++ events_of (k (result_of m w)) (world_after m w).
Proof.
  unfold result_of, world_after, events_of, bind.
  destruct (m w) as [[a w1] e1]; simpl. by destruct (k a w1) as [[b w2] e2].
Qed.

Lemma wp_bind_run {A B} (m : M A) (k : A → M B) w Q :
  wp (k (result_of m w)) (world_after m w)
     (λ b w2 e2, Q b w2 (events_of m w ++ e2)) →
  wp (bind m k) w Q.
Proof. intros Hk. apply wp_bind. exact Hk. Qed.

Lemma closes_app (l1 l2 : list event) : closes (l1 ++ l2) = closes l1 ++ closes l2.
Proof. unfold closes. apply omap_app. Qed.

Section LaterFacts.
Context `{Platform}.

Lemma keeps_refl (w : World) : keeps w w.
Proof. unfold keeps. auto. Qed.

Lemma keeps_trans (w1 w2 w3 : World) : keeps w1 w2 → keeps w2 w3 → keeps w1 w3.
Proof. unfold keeps. intros (?&?&?) (?&?&?). intuition congruence. Qed.

(** The handler writes 1 to the flag and does nothing else. *)
Lemma sigquit_handler_spec (sig : Z) (w : World) :
  sigquit_handler sig w = (tt, set_sigquit_received 1 w, []).
Proof. reflexivity. Qed.

(** tcsetattr_nostop touches no global of sigquit.c, registers nothing and
    closes nothing; its one tcsetattr carries its arguments. *)
Lemma tcsetattr_nostop_frame (fd action : Z) (t : termios) (w : World) :
  wp (tcsetattr_nostop fd action t) w (λ _ w' evs,
    sigquit_received w' = sigquit_received w ∧
    tc_saved w' = tc_saved w ∧
    fd_terminal w' = fd_terminal w ∧
    exit_registry w' = exit_registry w ∧
    open_fds w' = open_fds w ∧
    closes evs = [] ∧
    ∀ fd' action' t' r, In (EvTcsetattr fd' action' t' r) evs →
                        fd' = fd ∧ action' = action ∧ t' = t).
Proof.
  wp_run; repeat (split; [reflexivity|]);
    intros fd' action' t' r Hin; trace_cases; auto.
Qed.

(** termios_restore applies the saved snapshot to the saved descriptor
    through tcsetattr_nostop, then closes that descriptor. *)
Lemma termios_restore_spec (w : World) :
  wp termios_restore w (λ _ w' evs,
    sigquit_received w' = sigquit_received w ∧
    tc_saved w' = tc_saved w ∧
    fd_terminal w' = fd_terminal w ∧
    exit_registry w' = exit_registry w ∧
    closes evs = [fd_terminal w] ∧
    (∃ r, evs = events_of (tcsetattr_nostop (fd_terminal w) TCSANOW
                             (tc_saved w)) w
                ++ [EvClose (fd_terminal w) r]) ∧
    Forall (applies_only (fd_terminal w) (tc_saved w)) evs).
Proof.
  unfold termios_restore.
  apply wp_bind, wp_get, wp_bind, wp_get, wp_bind_run.
  pose proof (tcsetattr_nostop_frame (fd_terminal w) TCSANOW (tc_saved w) w)
    as (Hf & Hs & Hfd & Hr & Ho & Hc & Hset).
  set (w1 := world_after _ w) in *. set (e1 := events_of _ w) in *.
  clearbody w1.
  apply wp_bind, wp_get. rewrite Hfd.
  assert (Hall : Forall (applies_only (fd_terminal w) (tc_saved w)) e1).
  { apply Forall_forall. intros ev Hin. apply list_elem_of_In in Hin.
    destruct ev; try exact I. by apply Hset in Hin. }
  wp_run; cbn [app]; rewrite ?app_nil_r, ?closes_app, ?Hc; read_trace.
  all: repeat (split; [assumption || reflexivity|]).
  all: split; [eexists; reflexivity|].
  all: apply Forall_app; split; [exact Hall|]; by repeat constructor.
Qed.

Lemma host_events_close_nothing (evs : list event) :
  forallb is_host evs = true → closes evs = [].
Proof.
  induction evs as [|ev evs IH]; [done|]. cbn [forallb].
  intros [Hev Hevs]%andb_prop. destruct ev; try discriminate Hev; by apply IH.
Qed.

Lemma host_events_set_nothing (fd : Z) (s : termios) (evs : list event) :
  forallb is_host evs = true → Forall (applies_only fd s) evs.
Proof.
  induction evs as [|ev evs IH]; [constructor|]. cbn [forallb].
  intros [Hev Hevs]%andb_prop. constructor; [|by apply IH].
  by destruct ev.
Qed.

(** Delivery of a signal changes nothing, or sets the flag. *)
Lemma deliver_spec (sig : Z) (w : World) :
  wp (deliver sig) w (λ _ w' evs,
    (w' = w ∨ w' = set_sigquit_received 1 w) ∧ forallb is_host evs = true).
Proof.
  unfold deliver. apply wp_bind, wp_get.
  destruct (disposition_of w sig) as [| |[|n]]; wp_run; auto.
Qed.

Lemma deliver_all_spec (sigs : list Z) (w : World) :
  wp (deliver_all sigs) w (λ _ w' evs,
    (w' = w ∨ w' = set_sigquit_received 1 w) ∧ forallb is_host evs = true).
Proof.
  revert w. induction sigs as [|sig sigs IH]; intros w.
  - apply wp_ret. auto.
  - cbn [deliver_all]. apply wp_bind.
    eapply wp_mono; [apply deliver_spec|]. intros _ w1 e1 [Hw1 He1].
    eapply wp_mono; [apply IH|]. intros _ w2 e2 [Hw2 He2].
    rewrite forallb_app, He1, He2. split; [|done].
    destruct Hw1 as [->| ->], Hw2 as [->| ->]; auto.
Qed.

(** Exit hooks of the host run without touching the subsystem. *)
Lemma call_exitfns_host (l : list exitfn) (w : World) :
  fn_termios_restore ∉ l →
  wp (call_exitfns l) w (λ _ w' evs, w' = w ∧ forallb is_host evs = true).
Proof.
  revert w. induction l as [|f l IH]; intros w Hl.
  - by apply wp_ret.
  - cbn [call_exitfns]. apply wp_bind.
    destruct f as [|n]; [set_solver|].
    cbn [call_exitfn]. apply wp_emit.
    eapply wp_mono; [apply IH; set_solver|]. intros _ w2 e2 [-> He2].
    cbn [app forallb is_host andb]. auto.
Qed.

Lemma call_exitfn_keeps (f : exitfn) (w : World) :
  wp (call_exitfn f) w (λ _ w' evs,
    keeps w w' ∧ Forall (applies_only (fd_terminal w) (tc_saved w)) evs).
Proof.
  destruct f as [|n]; cbn [call_exitfn].
  - eapply wp_mono; [apply termios_restore_spec|].
    intros _ w' evs (Hf & Hs & Hfd & _ & _ & _ & Hall).
    unfold keeps. auto.
  - apply wp_emit. split; [apply keeps_refl | by repeat constructor].
Qed.

Lemma call_exitfns_keeps (l : list exitfn) (w : World) :
  wp (call_exitfns l) w (λ _ w' evs,
    keeps w w' ∧ Forall (applies_only (fd_terminal w) (tc_saved w)) evs).
Proof.
  revert w. induction l as [|f l IH]; intros w.
  - apply wp_ret. split; [apply keeps_refl | constructor].
  - cbn [call_exitfns]. apply wp_bind.
    eapply wp_mono; [apply call_exitfn_keeps|]. intros _ w1 e1 [Hk1 He1].
    eapply wp_mono; [apply IH|]. intros _ w2 e2 [Hk2 He2].
    split; [by eapply keeps_trans|].
    apply Forall_app. split; [done|].
    destruct Hk1 as (Hs & Hfd & _). by rewrite Hs, Hfd in He2.
Qed.

Lemma exit_process_keeps (w : World) :
  wp exit_process w (λ _ w' evs,
    keeps w w' ∧ Forall (applies_only (fd_terminal w) (tc_saved w)) evs).
Proof.
  unfold exit_process. apply wp_bind, wp_get, wp_bind, wp_modify.
  eapply wp_mono; [apply call_exitfns_keeps|]. intros _ w' evs [Hk He].
  done.
Qed.

Lemma exit_process_events (w : World) :
  events_of exit_process w =
  events_of (call_exitfns (exit_registry w)) (set_exit_registry [] w).
Proof.
  unfold exit_process, events_of, bind, get, modify.
  by destruct (call_exitfns _ _) as [[? ?] ?].
Qed.

(** When termios_restore was registered, last and once, exit runs it first
    and then only hooks of the host: one close, of the saved descriptor. *)
Lemma exit_process_registered (l : list exitfn) (w : World) :
  exit_registry w = fn_termios_restore :: l →
  fn_termios_restore ∉ l →
  ∃ (r : sysret) (hooks : list event),
    events_of exit_process w =
      events_of (tcsetattr_nostop (fd_terminal w) TCSANOW (tc_saved w))
                (set_exit_registry [] w)
      ++ EvClose (fd_terminal w) r :: hooks ∧
    forallb is_host hooks = true ∧
    closes (events_of exit_process w) = [fd_terminal w].
Proof.
  intros Hreg Hl. rewrite exit_process_events, Hreg.
  cbn [call_exitfns call_exitfn].
  rewrite (events_of_bind termios_restore (λ _, call_exitfns l)).
  cbv beta.
  pose proof (termios_restore_spec (set_exit_registry [] w)) as Hres.
  unfold wp in Hres. destruct Hres as (_ & _ & _ & Hr & Hc & [r Hev] & _).
  pose proof (call_exitfns_host l
                (world_after termios_restore (set_exit_registry [] w)) Hl)
    as Hhost.
  unfold wp in Hhost. destruct Hhost as [_ Hhooks].
  exists r, (events_of (call_exitfns l)
               (world_after termios_restore (set_exit_registry [] w))).
  read_world.
  split; [|split].
  - rewrite Hev. read_world. by rewrite <- app_assoc.
  - exact Hhooks.
  - rewrite closes_app, Hc, (host_events_close_nothing _ Hhooks). done.
Qed.

End LaterFacts.

Section LifetimeClaims.
Context `{Platform}.

(** What a captured snapshot and a successful registration leave behind. *)
Lemma sigquit_init_captured (w : World) (fd : Z) (s : termios) :
  In (EvTcgetattr fd (inl s)) (events_of sigquit_init w) →
  tc_saved (world_after sigquit_init w) = s ∧
  fd_terminal (world_after sigquit_init w) = fd ∧
  s = tty_live w ∧
  In (EvTtyfd fd) (events_of sigquit_init w) ∧ fd ≠ -1 ∧
  ∀ fd' action t r,
    In (EvTcsetattr fd' action t r) (events_of sigquit_init w) →
    fd' = fd ∧ action = TCSANOW ∧ t = remap_quit s.
Proof.
  pose proof (unused_fd_nonneg (open_fds w)) as Hfd.
  run_on sigquit_init w; intros Hin; trace_cases.
  all: repeat (split; [reflexivity || (simpl; tauto) || lia|]).
  all: intros fd' action t r Hin; trace_cases; auto.
Qed.

Lemma sigquit_init_registered (w : World) :
  In (EvAtexit fn_termios_restore Done) (events_of sigquit_init w) →
  exit_registry (world_after sigquit_init w) =
    fn_termios_restore :: exit_registry w.
Proof. run_on sigquit_init w; intros Hin; trace_cases; reflexivity. Qed.

Lemma sigquit_init_closes_nothing (w : World) :
  closes (events_of sigquit_init w) = [].
Proof. run_on sigquit_init w; reflexivity. Qed.



Lemma run_op_keeps (o : later_op) (w : World) :
  wp (run_op o) w (λ _ w' evs,
    keeps w w' ∧ Forall (applies_only (fd_terminal w) (tc_saved w)) evs).
Proof.
  destruct o as [sig|]; cbn [run_op].
  - eapply wp_mono; [apply deliver_spec|]. intros _ w' evs [Hw Hev].
    split; [|by apply host_events_set_nothing].
    destruct Hw as [->| ->]; unfold keeps; read_world; auto.
  - apply exit_process_keeps.
Qed.

Lemma run_ops_keeps (ops : list later_op) (w : World) :
  wp (run_ops ops) w (λ _ w' evs,
    keeps w w' ∧ Forall (applies_only (fd_terminal w) (tc_saved w)) evs).
Proof.
  revert w. induction ops as [|o ops IH]; intros w.
  - apply wp_ret. split; [apply keeps_refl | constructor].
  - cbn [run_ops]. apply wp_bind.
    eapply wp_mono; [apply run_op_keeps|]. intros _ w1 e1 [Hk1 He1].
    eapply wp_mono; [apply IH|]. intros _ w2 e2 [Hk2 He2].
    split; [by eapply keeps_trans|].
    apply Forall_app. split; [done|].
    destruct Hk1 as (Hs & Hfd & _). by rewrite Hs, Hfd in He2.
Qed.


Lemma process_events (sigs : list Z) (w : World) :
  events_of (process sigs) w =
  events_of sigquit_init w
  ++ events_of (deliver_all sigs) (world_after sigquit_init w)
  ++ events_of exit_process
       (world_after (deliver_all sigs) (world_after sigquit_init w)).
Proof.
  unfold process.
  rewrite events_of_bind.
  rewrite (events_of_bind (deliver_all sigs)).
  rewrite (events_of_bind exit_process).
  cbn [events_of ret snd]. by rewrite app_nil_r.
Qed.


(** The state in which exit finds the subsystem, after a registration. *)
Lemma registered_until_exit (w : World) (sigs : list Z) :
  In (EvAtexit fn_termios_restore Done) (events_of sigquit_init w) →
  let w2 := world_after (deliver_all sigs) (world_after sigquit_init w) in
  exit_registry w2 = fn_termios_restore :: exit_registry w ∧
  fd_terminal w2 = fd_terminal (world_after sigquit_init w) ∧
  tc_saved w2 = tc_saved (world_after sigquit_init w) ∧
  closes (events_of (deliver_all sigs) (world_after sigquit_init w)) = [].
Proof.
  intros Hreg w2. apply sigquit_init_registered in Hreg.
  pose proof (deliver_all_spec sigs (world_after sigquit_init w)) as Hd.
  unfold wp in Hd. destruct Hd as [Hw2 Hhost]. fold w2 in Hw2.
  split_and!; [..|by apply host_events_close_nothing].
  all: destruct Hw2 as [->| ->]; read_world; done.
Qed.

(** C9: the handler writes 1 to sigquit_received and does nothing else;
    tcsetattr_nostop and termios_restore do not write it; hence whatever
    the subsystem does after initialization leaves the flag as it was or
    sets it to 1, and a flag that holds 1 holds 1 ever after. *)
Theorem C9_flag_stays_set :
  (∀ sig w, sigquit_handler sig w = (tt, set_sigquit_received 1 w, [])) ∧
  (∀ fd action t w,
     sigquit_received (world_after (tcsetattr_nostop fd action t) w) =
       sigquit_received w) ∧
  (∀ w, sigquit_received (world_after termios_restore w) =
          sigquit_received w) ∧
  (∀ ops w,
     sigquit_received (world_after (run_ops ops) w) = sigquit_received w ∨
     sigquit_received (world_after (run_ops ops) w) = 1) ∧
  (∀ ops w,
     sigquit_received w = 1 →
     sigquit_received (world_after (run_ops ops) w) = 1).
Proof.
  split_and!.
  - reflexivity.
  - intros fd action t w.
    pose proof (tcsetattr_nostop_frame fd action t w) as Hfr.
    unfold wp in Hfr. tauto.
  - intros w. pose proof (termios_restore_spec w) as Hfr.
    unfold wp in Hfr. tauto.
  - intros ops w. pose proof (run_ops_keeps ops w) as Hk.
    unfold wp, keeps in Hk. tauto.
  - intros ops w Hset. pose proof (run_ops_keeps ops w) as Hk.
    unfold wp, keeps in Hk. destruct Hk as [(_ & _ & [Hk|Hk]) _]; congruence.
Qed.


End LifetimeClaims.

(** * Runs on Linux *)

(** Find an event in a trace that evaluates. *)
Ltac in_trace := vm_compute; repeat first [left; reflexivity | right].

(** tcsetattr fails with ENOTTY, an error of the benign set, in the sixth
    call of sigquit_init: the function returns -1 although none of the
    conditions of the specification holds. *)
Lemma C2_counterexample :
  events_of sigquit_init (boot (fault_at 5 ENOTTY)) =
    [EvSigaction SIGQUIT (SIG_FN fn_sigquit_handler) Done;
     EvTtyfd 3;
     EvTcgetattr 3 (inl cooked_termios);
     EvAtexit fn_termios_restore Done;
     EvSignal SIGTTOU SIG_IGN (Some SIG_DFL);
     EvTcsetattr 3 TCSANOW (remap_quit cooked_termios) (Failed ENOTTY);
     EvSignal SIGTTOU SIG_DFL (Some SIG_IGN);
     EvWarnp "tcsetattr(stdin)" ENOTTY] ∧
  benign_errno ENOTTY = true ∧
  failure_as_specified (events_of sigquit_init (boot (fault_at 5 ENOTTY)))
    = false ∧
  result_of sigquit_init (boot (fault_at 5 ENOTTY)) = -1.
Proof. vm_compute. repeat split. Qed.

(** The second signal call fails after a successful tcsetattr: the function
    returns -1, not what tcsetattr returned, and SIGTTOU stays ignored. *)
Lemma C3_counterexample :
  events_of (tcsetattr_nostop 0 TCSANOW cooked_termios)
            (boot (fault_at 2 EINVAL)) =
    [EvSignal SIGTTOU SIG_IGN (Some SIG_DFL);
     EvTcsetattr 0 TCSANOW cooked_termios Done;
     EvSignal SIGTTOU SIG_DFL None] ∧
  result_of (tcsetattr_nostop 0 TCSANOW cooked_termios)
            (boot (fault_at 2 EINVAL)) = -1 ∧
  rc_of Done = 0 ∧
  disposition_of (boot (fault_at 2 EINVAL)) SIGTTOU = SIG_DFL ∧
  disposition_of
    (world_after (tcsetattr_nostop 0 TCSANOW cooked_termios)
                 (boot (fault_at 2 EINVAL))) SIGTTOU = SIG_IGN.
Proof. vm_compute. repeat split. Qed.

(** ttyfd opens descriptor 3, tcgetattr fails on it with ENOTTY:
    sigquit_init returns 0 without registering termios_restore, and the
    descriptor is never closed. *)
Lemma C8_counterexample :
  events_of (process []) (boot (fault_at 2 ENOTTY)) =
    [EvSigaction SIGQUIT (SIG_FN fn_sigquit_handler) Done;
     EvTtyfd 3;
     EvTcgetattr 3 (inr ENOTTY)] ∧
  result_of (process []) (boot (fault_at 2 ENOTTY)) = 0 ∧
  closes (events_of (process []) (boot (fault_at 2 ENOTTY))) = [] ∧
  bool_decide
    (3 ∈ open_fds (world_after (process []) (boot (fault_at 2 ENOTTY))))
    = true.
Proof. vm_compute. repeat split. Qed.

Lemma C1_witness :
  ∃ s : termios,
    In (EvTcgetattr 3 (inl s)) (events_of sigquit_init (boot no_faults)) ∧
    remap_quit cooked_termios = remap_quit s ∧
    c_cc (remap_quit cooked_termios) !! VQUIT = Some 17.
Proof.
  destruct (C1_adjusted_attribute_set (boot no_faults) 3 TCSANOW
              (remap_quit cooked_termios) Done) as (s & Hin & _ & _ & Hs & Hq & _).
  - reflexivity.
  - in_trace.
  - exists s. auto.
Defined.

Lemma C3_witness :
  ∃ (r : sysret) (back : option disposition),
    events_of (tcsetattr_nostop 0 TCSANOW cooked_termios) (boot no_faults) =
      [EvSignal SIGTTOU SIG_IGN (Some SIG_DFL);
       EvTcsetattr 0 TCSANOW cooked_termios r;
       EvSignal SIGTTOU SIG_DFL back].
Proof.
  destruct (C3_sigttou_restored (boot no_faults) 0 TCSANOW cooked_termios
              SIG_DFL) as (r & back & _ & Hev & _).
  - vm_compute. reflexivity.
  - exists r, back. exact Hev.
Defined.

Lemma C5_witness :
  result_of sigquit_init (boot (fault_at 3 ENOMEM)) = -1 ∧
  existsb is_tcsetattr (events_of sigquit_init (boot (fault_at 3 ENOMEM)))
    = false ∧
  tty_live (world_after sigquit_init (boot (fault_at 3 ENOMEM))) =
    tty_live (boot (fault_at 3 ENOMEM)).
Proof.
  apply (proj2 (C5_registration_precedes_mutation (boot (fault_at 3 ENOMEM)))).
  vm_compute. reflexivity.
Defined.

Lemma C6_witness :
  result_of sigquit_init (boot (fault_at 1 ENXIO)) = 0 ∧
  sigquit_received (world_after sigquit_init (boot (fault_at 1 ENXIO))) = 0.
Proof.
  destruct (C6_no_terminal (boot (fault_at 1 ENXIO))) as (Hrc & Hflag & _).
  - in_trace.
  - auto.
Defined.

Lemma C7_witness :
  imalloc 10 8 small_heap = Some (malloc 80 small_heap).
Proof.
  destruct (C7_imalloc 10 8 small_heap) as (_ & _ & _ & Hm & _).
  - vm_compute. split; discriminate.
  - vm_compute. split; [reflexivity | discriminate].
  - apply Hm; [discriminate | vm_compute; discriminate].
Defined.

Lemma C9_witness :
  sigquit_received
    (world_after (run_ops [OpDeliver SIGTTOU; OpExit])
       (world_after (deliver SIGQUIT)
          (world_after sigquit_init (boot no_faults)))) = 1.
Proof.
  destruct C9_flag_stays_set as (_ & _ & _ & _ & Hset).
  apply Hset. vm_compute. reflexivity.
Defined.


(** * Further properties of sigquit.c *)

Ltac read_more :=
  cbn [diagnostics is_tcsetattr_done is_close_done last] in *; read_trace.

Section InitMore.
Context `{Platform}.

(** X1: sigquit_init hands the diagnostic sink one message when it returns
    -1 and none when it returns 0, and the message names the call that
    failed. *)
Theorem X1_one_diagnostic_per_failure (w : World) :
  diagnostics (events_of sigquit_init w) =
    (if existsb is_sigaction_failure (events_of sigquit_init w)
     then ["sigaction(SIGQUIT)"%string]
     else if existsb is_hard_tcgetattr_failure (events_of sigquit_init w)
     then ["tcgetattr(stdin)"%string]
     else if existsb is_atexit_failure (events_of sigquit_init w)
     then ["atexit"%string]
     else if existsb is_signal_failure (events_of sigquit_init w)
             || existsb is_tcsetattr_failure (events_of sigquit_init w)
     then ["tcsetattr(stdin)"%string]
     else []) ∧
  (result_of sigquit_init w = 0 ↔
   diagnostics (events_of sigquit_init w) = []) ∧
  (result_of sigquit_init w = -1 ↔
   length (diagnostics (events_of sigquit_init w)) = 1%nat).
Proof.
  run_on sigquit_init w; read_more; use_benign; read_more.
  all: split; [reflexivity|].
  all: split; split; intros Hx; try reflexivity; try discriminate Hx.
Qed.

Lemma deliver_to_handler (sig : Z) (w : World) :
  disposition_of w sig = SIG_FN fn_sigquit_handler →
  world_after (deliver sig) w = set_sigquit_received 1 w.
Proof.
  intros Hd. unfold deliver, world_after, bind, get. cbn [fst snd].
  by rewrite Hd.
Qed.

(** X2: sigquit_init leaves sigquit_received at 0 on every path; once its
    sigaction call has succeeded the handler stays installed for SIGQUIT
    when the function returns, also when it returns -1, and a SIGQUIT
    delivered afterwards sets the flag to 1. *)
Theorem X2_handler_stays_installed (w : World) :
  SIGQUIT ≠ SIGTTOU →
  sigquit_received (world_after sigquit_init w) = 0 ∧
  (existsb is_sigaction_failure (events_of sigquit_init w) = false →
   disposition_of (world_after sigquit_init w) SIGQUIT =
     SIG_FN fn_sigquit_handler ∧
   sigquit_received
     (world_after (deliver SIGQUIT) (world_after sigquit_init w)) = 1).
Proof.
  intros Hne.
  assert (Hgoal :
    sigquit_received (world_after sigquit_init w) = 0 ∧
    (existsb is_sigaction_failure (events_of sigquit_init w) = false →
     disposition_of (world_after sigquit_init w) SIGQUIT =
       SIG_FN fn_sigquit_handler)).
  { run_on sigquit_init w; read_more; unfold disposition_of; read_world.
    all: split; [reflexivity|]; intros Hx; try discriminate Hx.
    all: rewrite ?lookup_insert_ne by done; by rewrite lookup_insert_eq. }
  destruct Hgoal as [Hflag Hdisp]. split; [exact Hflag|].
  intros Hok. specialize (Hdisp Hok). split; [exact Hdisp|].
  by rewrite (deliver_to_handler _ _ Hdisp).
Qed.

(** X3: when sigaction fails, sigquit_init stops there: it returns -1 after
    the one diagnostic, carrying the error of sigaction, without looking
    for a terminal; no descriptor is opened and the saved snapshot, the
    saved descriptor, the exit registry, the signal dispositions and the
    live attributes are as before. *)
Theorem X3_sigaction_failure_stops (w : World) (h : disposition) (e : Z) :
  In (EvSigaction SIGQUIT h (Failed e)) (events_of sigquit_init w) →
  events_of sigquit_init w =
    [EvSigaction SIGQUIT (SIG_FN fn_sigquit_handler) (Failed e);
     EvWarnp "sigaction(SIGQUIT)" e] ∧
  result_of sigquit_init w = -1 ∧
  errno (world_after sigquit_init w) = e ∧
  open_fds (world_after sigquit_init w) = open_fds w ∧
  fd_terminal (world_after sigquit_init w) = fd_terminal w ∧
  tc_saved (world_after sigquit_init w) = tc_saved w ∧
  exit_registry (world_after sigquit_init w) = exit_registry w ∧
  sigtab (world_after sigquit_init w) = sigtab w ∧
  tty_live (world_after sigquit_init w) = tty_live w.
Proof.
  run_on sigquit_init w; intros Hin; trace_cases. repeat split.
Qed.

(** X4: when sigquit_init returns 0 having captured a snapshot, the
    terminal's live attributes are the adjusted copy of what they were,
    tc_saved holds what they were, termios_restore is the most recently
    registered exit function, the descriptor from ttyfd is open and saved,
    SIGTTOU has the disposition it had, and the handler is installed. *)
Theorem X4_active_with_terminal (w : World) (fd : Z) (s : termios) :
  SIGQUIT ≠ SIGTTOU →
  In (EvTcgetattr fd (inl s)) (events_of sigquit_init w) →
  result_of sigquit_init w = 0 →
  s = tty_live w ∧
  tty_live (world_after sigquit_init w) = remap_quit (tty_live w) ∧
  tc_saved (world_after sigquit_init w) = tty_live w ∧
  exit_registry (world_after sigquit_init w) =
    fn_termios_restore :: exit_registry w ∧
  fd_terminal (world_after sigquit_init w) = fd ∧
  fd ∈ open_fds (world_after sigquit_init w) ∧
  disposition_of (world_after sigquit_init w) SIGTTOU =
    disposition_of w SIGTTOU ∧
  disposition_of (world_after sigquit_init w) SIGQUIT =
    SIG_FN fn_sigquit_handler ∧
  sigquit_received (world_after sigquit_init w) = 0.
Proof.
  intros Hne.
  run_on sigquit_init w; intros Hin Hrc; trace_cases; try discriminate Hrc.
  unfold disposition_of; read_world.
  split_and!; try reflexivity.
  - set_solver.
  - rewrite lookup_insert_eq. cbn [default].
    by rewrite lookup_insert_ne by done.
  - rewrite !lookup_insert_ne by done. by rewrite lookup_insert_eq.
Qed.

(** X5: on every path of sigquit_init, failing ones included, the live
    attributes on return are the adjusted copy if the tcsetattr call was
    made and succeeded, and are untouched otherwise. *)
Theorem X5_live_attributes_after_init (w : World) :
  tty_live (world_after sigquit_init w) =
    (if existsb is_tcsetattr_done (events_of sigquit_init w)
     then remap_quit (tty_live w)
     else tty_live w).
Proof. run_on sigquit_init w; reflexivity. Qed.

End InitMore.

Section NostopMore.
Context `{Platform}.

(** X6: when the first signal call of tcsetattr_nostop fails, the function
    returns -1 at once: tcsetattr is not called, and the live attributes and
    every signal disposition are as before. *)
Theorem X6_nostop_first_signal_fails (w : World) (fd action : Z)
    (t : termios) :
  head (events_of (tcsetattr_nostop fd action t) w) =
    Some (EvSignal SIGTTOU SIG_IGN None) →
  events_of (tcsetattr_nostop fd action t) w =
    [EvSignal SIGTTOU SIG_IGN None] ∧
  result_of (tcsetattr_nostop fd action t) w = -1 ∧
  tty_live (world_after (tcsetattr_nostop fd action t) w) = tty_live w ∧
  sigtab (world_after (tcsetattr_nostop fd action t) w) = sigtab w.
Proof.
  run_on (tcsetattr_nostop fd action t) w; cbn [head]; intros Hhd;
    simplify_eq; repeat split.
Qed.


End NostopMore.

Section RestoreMore.
Context `{Platform}.

Lemma termios_restore_effects (w : World) :
  wp termios_restore w (λ _ w' evs,
    (∃ r, last evs = Some (EvClose (fd_terminal w) r)) ∧
    tty_live w' =
      (if existsb is_tcsetattr_done evs then tc_saved w else tty_live w) ∧
    (existsb is_close_done evs = true →
       open_fds w' = open_fds w ∖ {[fd_terminal w]}) ∧
    (existsb is_close_done evs = false → open_fds w' = open_fds w) ∧
    (∀ sig, sig ≠ SIGTTOU → disposition_of w' sig = disposition_of w sig)).
Proof.
  wp_run; unfold disposition_of; read_world; read_more.
  all: split; [eexists; reflexivity|].
  all: split; [reflexivity|].
  all: split; [intros Hx; first [discriminate Hx | reflexivity]|].
  all: split; [intros Hx; first [discriminate Hx | reflexivity]|].
  all: intros sig Hsig; by rewrite ?lookup_insert_ne by done.
Qed.

(** X8: termios_restore always ends by calling close on the saved
    descriptor, whether or not the attributes could be restored; the live
    attributes become the saved snapshot exactly when its tcsetattr
    succeeded; the descriptor leaves the table exactly when close
    succeeded; the flag, the snapshot, the saved descriptor and the
    dispositions of signals other than SIGTTOU are not touched. *)
Theorem X8_restore_is_best_effort (w : World) :
  (∃ r, last (events_of termios_restore w) = Some (EvClose (fd_terminal w) r)) ∧
  closes (events_of termios_restore w) = [fd_terminal w] ∧
  tty_live (world_after termios_restore w) =
    (if existsb is_tcsetattr_done (events_of termios_restore w)
     then tc_saved w else tty_live w) ∧
  open_fds (world_after termios_restore w) =
    (if existsb is_close_done (events_of termios_restore w)
     then open_fds w ∖ {[fd_terminal w]} else open_fds w) ∧
  sigquit_received (world_after termios_restore w) = sigquit_received w ∧
  tc_saved (world_after termios_restore w) = tc_saved w ∧
  fd_terminal (world_after termios_restore w) = fd_terminal w ∧
  (∀ sig, sig ≠ SIGTTOU →
     disposition_of (world_after termios_restore w) sig =
       disposition_of w sig).
Proof.
  pose proof (termios_restore_effects w) as He. unfold wp in He.
  destruct He as (Hlast & Hlive & Hc1 & Hc0 & Hsig).
  pose proof (termios_restore_spec w) as Hs. unfold wp in Hs.
  destruct Hs as (Hf & Hsv & Hfd & _ & Hcl & _).
  split_and!; try assumption.
  destruct (existsb is_close_done _); auto.
Qed.

End RestoreMore.

Section LifetimeMore.
Context `{Platform}.

Lemma process_world (sigs : list Z) (w : World) :
  world_after (process sigs) w =
  world_after exit_process
    (world_after (deliver_all sigs) (world_after sigquit_init w)).
Proof.
  unfold process.
  rewrite world_after_bind.
  rewrite (world_after_bind (deliver_all sigs)).
  by rewrite (world_after_bind exit_process).
Qed.

Lemma exit_process_world (w : World) :
  world_after exit_process w =
  world_after (call_exitfns (exit_registry w)) (set_exit_registry [] w).
Proof.
  unfold exit_process, world_after, bind, get, modify.
  by destruct (call_exitfns _ _) as [[? ?] ?].
Qed.

Lemma host_events_set_no_attributes (evs : list event) :
  forallb is_host evs = true → existsb is_tcsetattr_done evs = false.
Proof.
  induction evs as [|ev evs IH]; [done|]. cbn [forallb existsb].
  intros [Hev Hevs]%andb_prop. rewrite (IH Hevs).
  by destruct ev.
Qed.

Lemma host_events_close_no_descriptor (evs : list event) :
  forallb is_host evs = true → existsb is_close_done evs = false.
Proof.
  induction evs as [|ev evs IH]; [done|]. cbn [forallb existsb].
  intros [Hev Hevs]%andb_prop. rewrite (IH Hevs).
  by destruct ev.
Qed.

(** Exit, when termios_restore was registered last and once: the state it
    leaves is the one termios_restore leaves, and the calls it makes are
    those of termios_restore. *)
Lemma exit_process_runs_restore (l : list exitfn) (w : World) :
  exit_registry w = fn_termios_restore :: l →
  fn_termios_restore ∉ l →
  world_after exit_process w =
    world_after termios_restore (set_exit_registry [] w) ∧
  existsb is_tcsetattr_done (events_of exit_process w) =
    existsb is_tcsetattr_done
      (events_of termios_restore (set_exit_registry [] w)) ∧
  existsb is_close_done (events_of exit_process w) =
    existsb is_close_done
      (events_of termios_restore (set_exit_registry [] w)).
Proof.
  intros Hreg Hl.
  rewrite exit_process_world, exit_process_events, Hreg.
  cbn [call_exitfns call_exitfn].
  rewrite (world_after_bind termios_restore (λ _, call_exitfns l)).
  rewrite (events_of_bind termios_restore (λ _, call_exitfns l)).
  cbv beta.
  pose proof (call_exitfns_host l
                (world_after termios_restore (set_exit_registry [] w)) Hl)
    as Hhost.
  unfold wp in Hhost. destruct Hhost as [Hw Hhooks].
  rewrite Hw, !existsb_app.
  rewrite (host_events_set_no_attributes _ Hhooks).
  rewrite (host_events_close_no_descriptor _ Hhooks).
  by rewrite !orb_false_r.
Qed.

(** X9: after an initialization that captured a snapshot and registered
    termios_restore, whatever it returned and whatever signals arrived, an
    exit whose tcsetattr succeeds leaves the terminal with the attributes
    it had before sigquit_init was called; and if its close succeeds, the
    descriptor opened by ttyfd is no longer open. *)
Theorem X9_exit_restores_terminal (w : World) (sigs : list Z) (fd : Z)
    (s : termios) :
  ¬ In fn_termios_restore (exit_registry w) →
  In (EvTcgetattr fd (inl s)) (events_of sigquit_init w) →
  In (EvAtexit fn_termios_restore Done) (events_of sigquit_init w) →
  (existsb is_tcsetattr_done
     (events_of exit_process
        (world_after (deliver_all sigs) (world_after sigquit_init w))) = true →
   tty_live (world_after (process sigs) w) = tty_live w) ∧
  (existsb is_close_done
     (events_of exit_process
        (world_after (deliver_all sigs) (world_after sigquit_init w))) = true →
   fd ∉ open_fds (world_after (process sigs) w)).
Proof.
  intros Hfresh Hcap Hreg. rewrite <- list_elem_of_In in Hfresh.
  destruct (sigquit_init_captured w fd s Hcap) as (Hs & Hfd & Hlive & _).
  destruct (registered_until_exit w sigs Hreg) as (Hr2 & Hfd2 & Hs2 & _).
  destruct (exit_process_runs_restore _ _ Hr2 Hfresh) as (Hw & Hset & Hcl).
  rewrite process_world, Hw, Hset, Hcl.
  pose proof (termios_restore_effects
    (set_exit_registry []
       (world_after (deliver_all sigs) (world_after sigquit_init w)))) as He.
  unfold wp in He. read_world.
  destruct He as (_ & Htty & Hc1 & _ & _).
  rewrite Hs2, Hs, Hfd2, Hfd in *.
  split.
  - intros Hdone. rewrite Htty, Hdone. congruence.
  - intros Hdone. rewrite (Hc1 Hdone).
    intros [_ Hout]%elem_of_difference. apply Hout. by apply elem_of_singleton.
Qed.

Lemma deliver_all_sets_flag (sigs : list Z) (w : World) :
  disposition_of w SIGQUIT = SIG_FN fn_sigquit_handler →
  In SIGQUIT sigs →
  sigquit_received (world_after (deliver_all sigs) w) = 1.
Proof.
  revert w. induction sigs as [|sig sigs IH]; intros w Hd Hin; [done|].
  cbn [deliver_all]. rewrite world_after_bind.
  pose proof (deliver_spec sig w) as Hone. unfold wp in Hone.
  destruct Hone as [Hw1 _].
  pose proof (deliver_all_spec sigs (world_after (deliver sig) w)) as Hrest.
  unfold wp in Hrest. destruct Hrest as [Hw2 _].
  destruct Hin as [->|Hin].
  - rewrite (deliver_to_handler _ _ Hd) in *.
    by destruct Hw2 as [->| ->].
  - apply IH; [|exact Hin]. by destruct Hw1 as [->| ->].
Qed.

(** X10: once sigaction has succeeded in sigquit_init, a SIGQUIT delivered
    at any point of the rest of the run is recorded: sigquit_received is 1
    after the deliveries and still 1 when the process has exited. *)
Theorem X10_quit_is_recorded (w : World) (sigs : list Z) :
  SIGQUIT ≠ SIGTTOU →
  existsb is_sigaction_failure (events_of sigquit_init w) = false →
  In SIGQUIT sigs →
  sigquit_received
    (world_after (deliver_all sigs) (world_after sigquit_init w)) = 1 ∧
  sigquit_received (world_after (process sigs) w) = 1.
Proof.
  intros Hne Hok Hin.
  assert (Hd : disposition_of (world_after sigquit_init w) SIGQUIT =
               SIG_FN fn_sigquit_handler).
  { revert Hok.
    run_on sigquit_init w; read_more; unfold disposition_of; read_world.
    all: intros Hx; try discriminate Hx.
    all: rewrite ?lookup_insert_ne by done; by rewrite lookup_insert_eq. }
  pose proof (deliver_all_sets_flag sigs _ Hd Hin) as Hflag.
  split; [exact Hflag|].
  rewrite process_world.
  pose proof (exit_process_keeps
    (world_after (deliver_all sigs) (world_after sigquit_init w))) as Hk.
  unfold wp, keeps in Hk. destruct Hk as [(_ & _ & [Hk|Hk]) _]; congruence.
Qed.

End LifetimeMore.

Section AdjustMore.
Context `{Platform}.

Lemma termios_ext (t1 t2 : termios) :
  c_iflag t1 = c_iflag t2 → c_oflag t1 = c_oflag t2 →
  c_cflag t1 = c_cflag t2 → c_lflag t1 = c_lflag t2 →
  c_cc t1 = c_cc t2 →
  c_ispeed t1 = c_ispeed t2 → c_ospeed t1 = c_ospeed t2 →
  t1 = t2.
Proof. destruct t1, t2; simpl; intros; by subst. Qed.

Lemma unbind_cc_idempotent (c : Z) : unbind_cc (unbind_cc c) = unbind_cc c.
Proof.
  unfold unbind_cc. destruct (c =? CTRL_Q) eqn:Hc; [|by rewrite Hc].
  by destruct (_POSIX_VDISABLE =? CTRL_Q).
Qed.

Lemma remap_quit_again (s : termios) :
  length (c_cc s) = NCCS →
  remap_quit (remap_quit s) = remap_quit s.
Proof.
  intros Hlen.
  destruct (remap_quit_spec s Hlen)
    as (Hq & H17 & Hother & Hlen' & ? & ? & ? & ? & ? & ?).
  destruct (remap_quit_spec (remap_quit s) Hlen')
    as (Hq2 & H17' & Hother' & Hlen'' & ? & ? & ? & ? & ? & ?).
  apply termios_ext; try congruence.
  apply list_eq. intros i.
  destruct (decide (i = VQUIT)) as [->|Hi]; [congruence|].
  destruct (c_cc (remap_quit s) !! i) as [c|] eqn:Hc.
  - destruct (decide (c = 17)) as [->|Hc17].
    + rewrite (H17' i 17 Hi Hc eq_refl).
      destruct (c_cc s !! i) as [c0|] eqn:Hc0.
      * destruct (decide (c0 = 17)) as [->|Hc0'].
        -- rewrite (H17 i 17 Hi Hc0 eq_refl) in Hc. congruence.
        -- rewrite (Hother i c0 Hi Hc0 Hc0') in Hc. congruence.
      * apply lookup_ge_None in Hc0. apply lookup_lt_Some in Hc. lia.
    + exact (Hother' i c Hi Hc Hc17).
  - apply lookup_ge_None in Hc. apply lookup_ge_None. lia.
Qed.

(** X11: the adjustment of the control characters is idempotent: applied to
    an attribute set it has already produced, it changes nothing; and the
    set it produces has ^Q bound to VQUIT alone, unless _POSIX_VDISABLE is
    itself 0x11. *)
Theorem X11_remap_quit_idempotent (s : termios) :
  length (c_cc s) = NCCS →
  remap_quit (remap_quit s) = remap_quit s ∧
  (_POSIX_VDISABLE ≠ 17 →
   ∀ i, c_cc (remap_quit s) !! i = Some 17 → i = VQUIT).
Proof.
  intros Hlen. split; [by apply remap_quit_again|].
  intros Hv i Hi.
  destruct (remap_quit_spec s Hlen) as (_ & H17 & Hother & Hlen' & _).
  destruct (decide (i = VQUIT)) as [|Hne]; [done|]. exfalso.
  assert (Hlt : (i < length (c_cc s))%nat)
    by (apply lookup_lt_Some in Hi; lia).
  apply lookup_lt_is_Some in Hlt as [c Hc].
  destruct (decide (c = 17)) as [->|Hc17].
  - rewrite (H17 i 17 Hne Hc eq_refl) in Hi. congruence.
  - rewrite (Hother i c Hne Hc Hc17) in Hi. congruence.
Qed.

End AdjustMore.

Section ImallocMore.
Context `{Platform}.

(** X12: imalloc makes at most one request to the allocator, and a request
    it makes is never for zero bytes and never for more than SIZE_MAX: it
    is the product nrec * reclen, at least as large as nrec and as
    reclen. *)
Theorem X12_imalloc_request_bounds (nrec reclen : Z) (h h' : Heap) (p : Z) :
  0 <= nrec <= SIZE_MAX →
  0 < reclen <= SIZE_MAX →
  imalloc nrec reclen h = Some (p, h') →
  requests (h_log h') = requests (h_log h) ∨
  ∃ size,
    requests (h_log h') = size :: requests (h_log h) ∧
    size = nrec * reclen ∧
    0 < size <= SIZE_MAX ∧ nrec <= size ∧ reclen <= size.
Proof.
  intros Hn Hr. unfold imalloc.
  destruct (Z.eqb_spec reclen 0) as [?|_]; [lia|]. cbn [negb].
  destruct (Z.eqb_spec nrec 0) as [->|Hnz]; [intros [= <- <-]; by left|].
  destruct (Z.gtb_spec nrec (SIZE_MAX / reclen)) as [Hgt|Hle];
    [intros [= <- <-]; by left|].
  rewrite size_mul_exact by lia. intros [= Heq]. right.
  exists (nrec * reclen).
  pose proof (malloc_requests (nrec * reclen) h) as Hreq.
  rewrite Heq in Hreq. cbn [snd] in Hreq.
  assert (¬ nrec * reclen > SIZE_MAX) by (rewrite <- overflow_test; lia).
  split; [exact Hreq|]. split; [reflexivity|]. nia.
Qed.

(** X13: IMALLOC reports failure exactly when it was asked for at least one
    record and stored NULL.  Asked for zero records it stores NULL, touches
    nothing and reports success; on overflow it reports failure with errno
    ENOMEM and without calling malloc; when it reports success for a
    non-zero count, the pointer stored is the non-NULL one that malloc
    returned for nrec * size bytes; whenever it reports failure, errno is
    ENOMEM. *)
Theorem X13_IMALLOC_reports (nrec size : Z) (h : Heap) :
  0 <= nrec <= SIZE_MAX →
  0 < size <= SIZE_MAX →
  ∃ (failed : bool) (p : Z) (h' : Heap),
    IMALLOC nrec size h = Some (failed, p, h') ∧
    (failed = true ↔ nrec ≠ 0 ∧ p = NULL) ∧
    (nrec = 0 → failed = false ∧ p = NULL ∧ h' = h) ∧
    (nrec * size > SIZE_MAX →
       failed = true ∧ h_errno h' = ENOMEM ∧
       requests (h_log h') = requests (h_log h)) ∧
    (failed = false → nrec ≠ 0 →
       p ≠ NULL ∧ p = h_grant h (h_log h) (nrec * size) ∧
       requests (h_log h') = nrec * size :: requests (h_log h)) ∧
    (failed = true → h_errno h' = ENOMEM).
Proof.
  intros Hn Hs. unfold IMALLOC, imalloc.
  destruct (Z.eqb_spec size 0) as [?|_]; [lia|]. cbn [negb].
  pose proof (overflow_test nrec size ltac:(lia)) as Hov.
  destruct (Z.eqb_spec nrec 0) as [->|Hnz].
  - eexists _, _, _. split; [reflexivity|].
    cbn [andb]. change (NULL =? NULL) with true. change (0 >? 0) with false.
    split_and!; try done; try lia.
  - assert (Hpos : (nrec >? 0) = true) by lia.
    destruct (Z.gtb_spec nrec (SIZE_MAX / size)) as [Hgt|Hle].
    + eexists _, _, _. split; [reflexivity|].
      rewrite Hpos. change (NULL =? NULL) with true. cbn [andb h_errno h_log].
      split_and!; try done.
    + rewrite size_mul_exact by lia. unfold malloc.
      destruct (Z.eqb_spec (h_grant h (h_log h) (nrec * size)) NULL) as [Hp|Hp].
      * eexists _, _, _. split; [reflexivity|].
        rewrite Hpos. change (NULL =? NULL) with true. cbn [andb h_errno h_log].
        split_and!; try done; lia.
      * eexists _, _, _. split; [reflexivity|].
        rewrite Hpos. apply Z.eqb_neq in Hp as Hp'. rewrite Hp'.
        cbn [andb h_errno h_log].
        split_and!; try done; try lia.
Qed.

End ImallocMore.

(** ** Runs in which no call fails *)

Ltac calm_paths Hcalm :=
  try match goal with
      | F : faults _ _ = Some _ |- _ => rewrite Hcalm in F; discriminate F
      end.

Ltac closed_paths :=
  try match goal with
      | D : bool_decide (?x ∈ ?X) = false |- _ =>
          apply bool_decide_eq_false in D; contradiction
      | D : true = false |- _ => discriminate D
      | D : false = true |- _ => discriminate D
      end.

Section CalmRuns.
Context `{Platform}.

Lemma termios_restore_calm (w : World) :
  calm w →
  fd_terminal w ∈ open_fds w →
  wp termios_restore w (λ _ w' evs,
    evs = [EvSignal SIGTTOU SIG_IGN (Some (disposition_of w SIGTTOU));
           EvTcsetattr (fd_terminal w) TCSANOW (tc_saved w) Done;
           EvSignal SIGTTOU (disposition_of w SIGTTOU) (Some SIG_IGN);
           EvClose (fd_terminal w) Done] ∧
    tty_live w' = tc_saved w ∧
    open_fds w' = open_fds w ∖ {[fd_terminal w]} ∧
    disposition_of w' SIGTTOU = disposition_of w SIGTTOU).
Proof.
  intros Hcalm Hopen. unfold calm in Hcalm.
  wp_run; calm_paths Hcalm; closed_paths.
  unfold disposition_of; read_world.
  rewrite !lookup_insert_eq. cbn [default]. repeat split.
Qed.

Lemma sigquit_init_calm (w : World) :
  calm w →
  SIGQUIT ≠ SIGTTOU →
  result_of sigquit_init w = 0 ∧
  (∃ fd, In (EvTtyfd fd) (events_of sigquit_init w) ∧
         fd_terminal (world_after sigquit_init w) = fd ∧
         fd ∈ open_fds (world_after sigquit_init w)) ∧
  tc_saved (world_after sigquit_init w) = tty_live w ∧
  tty_live (world_after sigquit_init w) = remap_quit (tty_live w) ∧
  exit_registry (world_after sigquit_init w) =
    fn_termios_restore :: exit_registry w ∧
  faults (world_after sigquit_init w) = faults w ∧
  disposition_of (world_after sigquit_init w) SIGTTOU =
    disposition_of w SIGTTOU.
Proof.
  intros Hcalm Hne. unfold calm in Hcalm.
  run_on sigquit_init w; calm_paths Hcalm.
  unfold disposition_of; read_world.
  split_and!; try reflexivity.
  - eexists. split; [simpl; tauto|]. split; [reflexivity|]. set_solver.
  - rewrite lookup_insert_eq. cbn [default].
    by rewrite lookup_insert_ne by done.
Qed.

Lemma sigquit_init_calm_state (w : World) :
  calm w →
  result_of sigquit_init w = 0 ∧
  tc_saved (world_after sigquit_init w) = tty_live w ∧
  tty_live (world_after sigquit_init w) = remap_quit (tty_live w) ∧
  exit_registry (world_after sigquit_init w) =
    fn_termios_restore :: exit_registry w ∧
  faults (world_after sigquit_init w) = faults w.
Proof.
  intros Hcalm. unfold calm in Hcalm.
  run_on sigquit_init w; calm_paths Hcalm. repeat split.
Qed.

(** X15: sigquit_init is not reentrant.  Called a second time in a run
    where no call fails, it captures the attributes its first call
    installed: tc_saved then holds the adjusted set, not the terminal's
    original attributes, and termios_restore is registered twice. *)
Theorem X15_second_init_loses_snapshot (w : World) :
  calm w →
  length (c_cc (tty_live w)) = NCCS →
  result_of (sigquit_init ;; sigquit_init) w = 0 ∧
  tc_saved (world_after sigquit_init w) = tty_live w ∧
  tc_saved (world_after (sigquit_init ;; sigquit_init) w) =
    remap_quit (tty_live w) ∧
  tty_live (world_after (sigquit_init ;; sigquit_init) w) =
    remap_quit (tty_live w) ∧
  exit_registry (world_after (sigquit_init ;; sigquit_init) w) =
    fn_termios_restore :: fn_termios_restore :: exit_registry w.
Proof.
  intros Hcalm Hlen.
  rewrite result_of_bind, world_after_bind. cbv beta.
  destruct (sigquit_init_calm_state w Hcalm) as (_ & Hs & Hl & Hr & Hf).
  assert (Hcalm' : calm (world_after sigquit_init w))
    by (unfold calm; by rewrite Hf).
  destruct (sigquit_init_calm_state _ Hcalm') as (Hrc & Hs' & Hl' & Hr' & _).
  rewrite Hrc, Hs', Hl', Hr', Hl, Hr, Hs.
  by rewrite (remap_quit_again _ Hlen).
Qed.

End CalmRuns.

(** ** Runs on Linux, continued *)

Lemma X2_witness :
  sigquit_received
    (world_after (deliver SIGQUIT)
       (world_after sigquit_init (boot (fault_at 3 ENOMEM)))) = 1.
Proof.
  destruct (X2_handler_stays_installed (boot (fault_at 3 ENOMEM)))
    as (_ & Hinst).
  - vm_compute. discriminate.
  - apply Hinst. vm_compute. reflexivity.
Defined.

Lemma X3_witness :
  result_of sigquit_init (boot (fault_at 0 EINVAL)) = -1 ∧
  open_fds (world_after sigquit_init (boot (fault_at 0 EINVAL))) =
    open_fds (boot (fault_at 0 EINVAL)).
Proof.
  destruct (X3_sigaction_failure_stops (boot (fault_at 0 EINVAL))
              (SIG_FN fn_sigquit_handler) EINVAL)
    as (_ & Hrc & _ & Hfds & _).
  - in_trace.
  - auto.
Defined.

Lemma X4_witness :
  tty_live (world_after sigquit_init (boot no_faults)) =
    remap_quit (tty_live (boot no_faults)).
Proof.
  destruct (X4_active_with_terminal (boot no_faults) 3 cooked_termios)
    as (_ & Hlive & _).
  - vm_compute. discriminate.
  - in_trace.
  - vm_compute. reflexivity.
  - exact Hlive.
Defined.

Lemma X6_witness :
  result_of (tcsetattr_nostop 0 TCSANOW cooked_termios)
            (boot (fault_at 0 EINVAL)) = -1.
Proof.
  destruct (X6_nostop_first_signal_fails (boot (fault_at 0 EINVAL)) 0 TCSANOW
              cooked_termios) as (_ & Hrc & _).
  - vm_compute. reflexivity.
  - exact Hrc.
Defined.

Lemma X9_witness :
  tty_live (world_after (process [SIGQUIT]) (boot (fault_at 5 EINVAL))) =
    tty_live (boot (fault_at 5 EINVAL)).
Proof.
  destruct (X9_exit_restores_terminal (boot (fault_at 5 EINVAL)) [SIGQUIT] 3
              cooked_termios) as (Hlive & _).
  - simpl. tauto.
  - in_trace.
  - in_trace.
  - apply Hlive. vm_compute. reflexivity.
Defined.

Lemma X10_witness :
  sigquit_received
    (world_after (process [SIGTTOU; SIGQUIT]) (boot no_faults)) = 1.
Proof.
  destruct (X10_quit_is_recorded (boot no_faults) [SIGTTOU; SIGQUIT])
    as (_ & Hflag).
  - vm_compute. discriminate.
  - vm_compute. reflexivity.
  - right. left. reflexivity.
  - exact Hflag.
Defined.

Lemma X11_witness :
  remap_quit (remap_quit cooked_termios) = remap_quit cooked_termios.
Proof.
  destruct (X11_remap_quit_idempotent cooked_termios) as (Hidem & _).
  - reflexivity.
  - exact Hidem.
Defined.

Lemma X12_witness :
  requests (h_log (malloc 80 small_heap).2) = requests (h_log small_heap) ∨
  ∃ size,
    requests (h_log (malloc 80 small_heap).2) =
      size :: requests (h_log small_heap) ∧
    size = 10 * 8 ∧ 0 < size <= SIZE_MAX ∧ 10 <= size ∧ 8 <= size.
Proof.
  apply (X12_imalloc_request_bounds 10 8 small_heap
           (malloc 80 small_heap).2 (malloc 80 small_heap).1).
  - vm_compute. split; discriminate.
  - vm_compute. split; [reflexivity | discriminate].
  - reflexivity.
Defined.

Lemma X13_witness :
  ∃ (failed : bool) (p : Z) (h' : Heap),
    IMALLOC 10 8 small_heap = Some (failed, p, h') ∧
    (failed = true ↔ 10 ≠ 0 ∧ p = NULL).
Proof.
  destruct (X13_IMALLOC_reports 10 8 small_heap)
    as (failed & p & h' & Heq & Hfail & _).
  - vm_compute. split; discriminate.
  - vm_compute. split; [reflexivity | discriminate].
  - exists failed, p, h'. auto.
Defined.

Lemma X15_witness :
  tc_saved (world_after (sigquit_init ;; sigquit_init) (boot no_faults)) =
    remap_quit (tty_live (boot no_faults)).
Proof.
  destruct (X15_second_init_loses_snapshot (boot no_faults))
    as (_ & _ & Hs & _).
  - intros n. reflexivity.
  - reflexivity.
  - exact Hs.
Defined.

(** * Restore and close over the whole life of the process *)

Section RestoreApplied.
Context `{Platform}.



End RestoreApplied.

Section WholeLife.
Context `{Platform} `{SignalDefaults}.

Lemma deliver_or_die_spec (sig : Z) (w : World) :
  wp (deliver_or_die sig) w (λ alive w' evs,
    (w' = w ∨ w' = set_sigquit_received 1 w) ∧
    forallb is_host evs = true ∧
    (disposition_of w sig = SIG_DFL → alive = negb (terminates sig)) ∧
    (disposition_of w sig ≠ SIG_DFL → alive = true)).
Proof.
  unfold deliver_or_die. apply wp_bind, wp_get.
  destruct (disposition_of w sig) as [| |[|n]]; wp_run;
    split_and!; auto; done.
Qed.

Lemma deliver_until_death_spec (sigs : list Z) (w : World) :
  wp (deliver_until_death sigs) w (λ _ w' evs,
    (w' = w ∨ w' = set_sigquit_received 1 w) ∧ forallb is_host evs = true).
Proof.
  revert w. induction sigs as [|sig sigs IH]; intros w.
  - apply wp_ret. auto.
  - cbn [deliver_until_death]. apply wp_bind.
    eapply wp_mono; [apply deliver_or_die_spec|].
    intros alive w1 e1 (Hw1 & He1 & _).
    destruct alive.
    + eapply wp_mono; [apply IH|]. intros _ w2 e2 [Hw2 He2].
      rewrite forallb_app, He1, He2. split; [|done].
      destruct Hw1 as [->| ->], Hw2 as [->| ->]; auto.
    + apply wp_ret. rewrite app_nil_r. auto.
Qed.

(** A process whose SIGQUIT is caught survives SIGQUIT and every signal
    whose default action does not end it. *)
Lemma survives_harmless_signals (sigs : list Z) (w : World) :
  disposition_of w SIGQUIT = SIG_FN fn_sigquit_handler →
  Forall (λ sig, sig = SIGQUIT ∨ terminates sig = false) sigs →
  result_of (deliver_until_death sigs) w = true.
Proof.
  revert w. induction sigs as [|sig sigs IH]; intros w Hq Hall; [done|].
  apply Forall_cons in Hall as [Hsig Hall].
  cbn [deliver_until_death]. rewrite result_of_bind.
  pose proof (deliver_or_die_spec sig w) as Hone. unfold wp in Hone.
  destruct Hone as (Hw1 & _ & Hdfl & Hcaught).
  assert (Halive : result_of (deliver_or_die sig) w = true).
  { destruct (disposition_of w sig) eqn:Hd.
    - rewrite Hdfl by done. destruct Hsig as [->|Hsig]; [congruence|by rewrite Hsig].
    - by apply Hcaught.
    - by apply Hcaught. }
  rewrite Halive. apply IH; [|exact Hall].
  by destruct Hw1 as [->| ->].
Qed.

(** The life of the process, piece by piece. *)
Lemma life_run (sigs : list Z) (how : ending) (w : World) :
  result_of (life sigs how) w =
    (result_of sigquit_init w,
     result_of (deliver_until_death sigs) (world_after sigquit_init w)
     && runs_exit_functions how) ∧
  world_after (life sigs how) w =
    (if result_of (deliver_until_death sigs) (world_after sigquit_init w)
        && runs_exit_functions how
     then world_after exit_process
            (world_after (deliver_until_death sigs)
               (world_after sigquit_init w))
     else world_after (deliver_until_death sigs)
            (world_after sigquit_init w)) ∧
  events_of (life sigs how) w =
    events_of sigquit_init w
    ++ events_of (deliver_until_death sigs) (world_after sigquit_init w)
    ++ (if result_of (deliver_until_death sigs) (world_after sigquit_init w)
           && runs_exit_functions how
        then events_of exit_process
               (world_after (deliver_until_death sigs)
                  (world_after sigquit_init w))
        else []).
Proof.
  unfold life.
  rewrite result_of_bind, world_after_bind, events_of_bind.
  rewrite (result_of_bind (deliver_until_death sigs)).
  rewrite (world_after_bind (deliver_until_death sigs)).
  rewrite (events_of_bind (deliver_until_death sigs)).
  cbv beta.
  destruct (result_of (deliver_until_death sigs) _ && runs_exit_functions how).
  - rewrite (result_of_bind exit_process), (world_after_bind exit_process),
      (events_of_bind exit_process).
    cbn [result_of world_after events_of ret fst snd].
    by rewrite app_nil_r.
  - done.
Qed.

Lemma sigquit_init_keeps_descriptor (w : World) (fd : Z) (s : termios) :
  In (EvTcgetattr fd (inl s)) (events_of sigquit_init w) →
  fd ∈ open_fds (world_after sigquit_init w) ∧
  existsb is_close_done (events_of sigquit_init w) = false.
Proof.
  run_on sigquit_init w; intros Hin; trace_cases.
  all: split; [set_solver | reflexivity].
Qed.

End WholeLife.

Section WholeLifeClaims.
Context `{Platform} `{SignalDefaults}.

(** The state in which the end of the process finds the subsystem. *)
Lemma state_at_the_end (w : World) (sigs : list Z) :
  let w1 := world_after sigquit_init w in
  let w2 := world_after (deliver_until_death sigs) w1 in
  exit_registry w2 = exit_registry w1 ∧
  fd_terminal w2 = fd_terminal w1 ∧
  tc_saved w2 = tc_saved w1 ∧
  open_fds w2 = open_fds w1 ∧
  sigtab w2 = sigtab w1 ∧
  tty_live w2 = tty_live w1 ∧
  faults w2 = faults w1 ∧
  closes (events_of (deliver_until_death sigs) w1) = [] ∧
  existsb is_close_done (events_of (deliver_until_death sigs) w1) = false.
Proof.
  intros w1 w2.
  pose proof (deliver_until_death_spec sigs w1) as Hd.
  unfold wp in Hd. destruct Hd as [Hw2 Hhost]. fold w2 in Hw2.
  split_and!;
    [..|by apply host_events_close_nothing
       |by apply host_events_close_no_descriptor].
  all: destruct Hw2 as [->| ->]; read_world; done.
Qed.

(** C8, as the code has it: take a process in which sigquit_init, called
    once, got a descriptor from ttyfd, captured the attributes and
    registered termios_restore.  If the process runs its exit functions,
    close is called on that descriptor exactly once in its life, by
    termios_restore at exit, and the descriptor is closed by that call when
    the call succeeds and stays open when it fails.  If the process ends
    otherwise (a signal ends it, or the host leaves without exit), the
    subsystem never closes the descriptor.  In any run, sigquit_init, the
    handler, signal delivery and tcsetattr_nostop call close on nothing. *)
Theorem C8_descriptor_closed_by_restore (w : World) (sigs : list Z)
    (how : ending) (fd : Z) (s : termios) :
  ¬ In fn_termios_restore (exit_registry w) →
  In (EvTcgetattr fd (inl s)) (events_of sigquit_init w) →
  In (EvAtexit fn_termios_restore Done) (events_of sigquit_init w) →
  (In (EvTtyfd fd) (events_of sigquit_init w) ∧ fd ≠ -1) ∧
  ((result_of (life sigs how) w).2 = true →
     closes (events_of (life sigs how) w) = [fd] ∧
     closes (events_of exit_process
               (world_after (deliver_until_death sigs)
                  (world_after sigquit_init w))) = [fd] ∧
     closes (events_of termios_restore
               (set_exit_registry []
                  (world_after (deliver_until_death sigs)
                     (world_after sigquit_init w)))) = [fd] ∧
     (existsb is_close_done (events_of (life sigs how) w) = true →
      fd ∉ open_fds (world_after (life sigs how) w)) ∧
     (existsb is_close_done (events_of (life sigs how) w) = false →
      fd ∈ open_fds (world_after (life sigs how) w))) ∧
  ((result_of (life sigs how) w).2 = false →
     closes (events_of (life sigs how) w) = [] ∧
     fd ∈ open_fds (world_after (life sigs how) w)) ∧
  (∀ w', closes (events_of sigquit_init w') = []) ∧
  (∀ sigs' w', closes (events_of (deliver_until_death sigs') w') = []) ∧
  (∀ sig w', events_of (sigquit_handler sig) w' = []) ∧
  (∀ fd' action t w',
     closes (events_of (tcsetattr_nostop fd' action t) w') = []).
Proof.
  intros Hfresh Hcap Hreg. rewrite <- list_elem_of_In in Hfresh.
  destruct (sigquit_init_captured w fd s Hcap) as (_ & Hfd & _ & Htty & Hne & _).
  destruct (sigquit_init_keeps_descriptor w fd s Hcap) as [Hopen Hnoclose].
  apply sigquit_init_registered in Hreg.
  destruct (state_at_the_end w sigs)
    as (Hr2 & Hfd2 & _ & Ho2 & _ & _ & _ & Hd & Hdd).
  destruct (life_run sigs how w) as (Hres & Hworld & Hevs).
  rewrite Hres, Hworld, Hevs. cbn [snd].
  rewrite Hreg in Hr2.
  destruct (exit_process_registered _ _ Hr2 Hfresh) as (_ & _ & _ & _ & Hx).
  destruct (exit_process_runs_restore _ _ Hr2 Hfresh) as (Hw & _ & Hcl).
  pose proof (termios_restore_effects
    (set_exit_registry []
       (world_after (deliver_until_death sigs)
          (world_after sigquit_init w)))) as He.
  unfold wp in He. destruct He as (_ & _ & Hc1 & Hc0 & _).
  pose proof (termios_restore_spec
    (set_exit_registry []
       (world_after (deliver_until_death sigs)
          (world_after sigquit_init w)))) as Hs.
  unfold wp in Hs. destruct Hs as (_ & _ & _ & _ & Hc & _).
  read_world. rewrite Hfd2, Hfd in *. rewrite Ho2 in *.
  split_and!.
  - exact Htty.
  - exact Hne.
  - intros ->.
    rewrite !closes_app, sigquit_init_closes_nothing, Hd, Hx.
    rewrite !existsb_app, Hnoclose, Hdd, Hcl, Hw.
    cbn [orb app].
    split_and!; try done.
    + intros Hdone. rewrite (Hc1 Hdone).
      intros [_ Hout]%elem_of_difference. apply Hout.
      by apply elem_of_singleton.
    + intros Hfail. by rewrite (Hc0 Hfail).
  - intros ->.
    rewrite !closes_app, sigquit_init_closes_nothing, Hd.
    split; [done|]. by rewrite Ho2.
  - apply sigquit_init_closes_nothing.
  - intros sigs' w'. pose proof (deliver_until_death_spec sigs' w') as Hd'.
    unfold wp in Hd'. apply host_events_close_nothing, Hd'.
  - reflexivity.
  - intros fd' action t w'.
    pose proof (tcsetattr_nostop_frame fd' action t w') as Hfr.
    unfold wp in Hfr. tauto.
Qed.

Lemma sigquit_init_calm_handler (w : World) :
  calm w →
  SIGQUIT ≠ SIGTTOU →
  disposition_of (world_after sigquit_init w) SIGQUIT =
    SIG_FN fn_sigquit_handler.
Proof.
  intros Hcalm Hne. unfold calm in Hcalm.
  run_on sigquit_init w; calm_paths Hcalm.
  unfold disposition_of; read_world.
  rewrite !lookup_insert_ne by done. by rewrite lookup_insert_eq.
Qed.

(** X14: a run in which no call fails.  sigquit_init returns 0 and puts
    the adjusted attributes in effect.  If the process then runs its exit
    functions, the descriptor ttyfd opened is closed, once, and the process
    leaves the terminal's attributes and the disposition of SIGTTOU as it
    found them.  If instead a signal ends the process, or the host leaves
    without exit, the terminal keeps the adjusted attributes and the
    descriptor is never closed.  A process that receives only SIGQUIT and
    signals whose default action does not end it, and that leaves through
    exit, runs its exit functions. *)
Theorem X14_clean_run (w : World) (sigs : list Z) (how : ending) :
  calm w →
  ¬ In fn_termios_restore (exit_registry w) →
  SIGQUIT ≠ SIGTTOU →
  ∃ fd,
    In (EvTtyfd fd) (events_of sigquit_init w) ∧
    (result_of (life sigs how) w).1 = 0 ∧
    tty_live (world_after sigquit_init w) = remap_quit (tty_live w) ∧
    ((result_of (life sigs how) w).2 = true →
       tty_live (world_after (life sigs how) w) = tty_live w ∧
       disposition_of (world_after (life sigs how) w) SIGTTOU =
         disposition_of w SIGTTOU ∧
       closes (events_of (life sigs how) w) = [fd] ∧
       fd ∉ open_fds (world_after (life sigs how) w)) ∧
    ((result_of (life sigs how) w).2 = false →
       tty_live (world_after (life sigs how) w) = remap_quit (tty_live w) ∧
       closes (events_of (life sigs how) w) = [] ∧
       fd ∈ open_fds (world_after (life sigs how) w)) ∧
    (how = by_exit →
     Forall (λ sig, sig = SIGQUIT ∨ terminates sig = false) sigs →
     (result_of (life sigs how) w).2 = true) ∧
    (how = without_exit → (result_of (life sigs how) w).2 = false).
Proof.
  intros Hcalm Hfresh Hne. rewrite <- list_elem_of_In in Hfresh.
  destruct (sigquit_init_calm w Hcalm Hne)
    as (Hrc & (fd & Htty & Hfd & Hopen) & Hs & Hlive & Hreg & Hf & Hd).
  pose proof (sigquit_init_calm_handler w Hcalm Hne) as Hq.
  destruct (state_at_the_end w sigs)
    as (Hr2 & Hfd2 & Hs2 & Ho2 & Hsig2 & Hl2 & Hf2 & Hcl2 & _).
  destruct (life_run sigs how w) as (Hres & Hworld & Hevs).
  rewrite Hres, Hworld, Hevs. cbn [fst snd].
  rewrite Hreg in Hr2.
  destruct (exit_process_runs_restore _ _ Hr2 Hfresh) as (Hw & _ & _).
  destruct (exit_process_registered _ _ Hr2 Hfresh) as (_ & _ & _ & _ & Hx).
  pose proof (termios_restore_calm
    (set_exit_registry []
       (world_after (deliver_until_death sigs)
          (world_after sigquit_init w)))) as Hres'.
  unfold wp, calm, disposition_of in Hres'. read_world.
  rewrite Hf2, Hf, Hfd2, Hfd, Ho2, Hs2, Hs, Hsig2 in Hres'.
  destruct (Hres' Hcalm Hopen) as (_ & Hlive' & Hopen' & Hd').
  exists fd. split_and!.
  - exact Htty.
  - exact Hrc.
  - exact Hlive.
  - intros ->. rewrite Hw.
    split_and!.
    + exact Hlive'.
    + unfold disposition_of in *. congruence.
    + rewrite !closes_app, sigquit_init_closes_nothing, Hcl2, Hx.
      by rewrite Hfd2, Hfd.
    + rewrite Hopen'.
      intros [_ Hout]%elem_of_difference. apply Hout.
      by apply elem_of_singleton.
  - intros ->. rewrite Hl2, Ho2.
    rewrite !closes_app, sigquit_init_closes_nothing, Hcl2.
    split_and!; done.
  - intros -> Hall.
    by rewrite (survives_harmless_signals sigs _ Hq Hall).
  - intros ->. cbn [runs_exit_functions]. by rewrite andb_false_r.
Qed.

End WholeLifeClaims.

(** ** Lives on Linux *)

(** SIGINT is not caught: it ends the process before exit, the terminal
    keeps the adjusted attributes and descriptor 3 is never closed. *)
Lemma ended_by_SIGINT :
  result_of (life [2] by_exit) (boot no_faults) = (0, false) ∧
  closes (events_of (life [2] by_exit) (boot no_faults)) = [] ∧
  tty_live (world_after (life [2] by_exit) (boot no_faults)) =
    remap_quit cooked_termios ∧
  bool_decide (3 ∈ open_fds (world_after (life [2] by_exit) (boot no_faults)))
    = true.
Proof. vm_compute. repeat split. Qed.


Lemma C8_witness :
  closes (events_of (life [SIGQUIT] by_exit) (boot no_faults)) = [3].
Proof.
  destruct (C8_descriptor_closed_by_restore (boot no_faults) [SIGQUIT] by_exit
              3 cooked_termios) as (_ & Hexit & _).
  - simpl. tauto.
  - in_trace.
  - in_trace.
  - apply Hexit. vm_compute. reflexivity.
Defined.

Lemma X14_witness :
  ∃ fd,
    In (EvTtyfd fd) (events_of sigquit_init (boot no_faults)) ∧
    (result_of (life [SIGQUIT; 28] by_exit) (boot no_faults)).1 = 0 ∧
    tty_live (world_after sigquit_init (boot no_faults)) =
      remap_quit (tty_live (boot no_faults)).
Proof.
  destruct (X14_clean_run (boot no_faults) [SIGQUIT; 28] by_exit)
    as (fd & Htty & Hrc & Hlive & _).
  - intros n. reflexivity.
  - simpl. tauto.
  - vm_compute. discriminate.
  - exists fd. auto.
Defined.
